(** * rss_bot.py: the RSS-to-Telegram forwarder, embedded and verified

    The development follows the layout of [rss_bot.py]:

    - Python data: text as lists of code points, the values an entry
      [dict] holds, truthiness, [str()];
    - the identity extractor [extract_entry_id];
    - the freshness filter [extract_entry_timestamp], [is_recent_entry];
    - the formatter [shorten_text], [escape_html], [build_message];
    - the seen-set store [load_history], [save_history] with the JSON
      text they read and write;
    - the run [main] over an explicit world (environment, the two files,
      the clock, the feeds and the transport), as a state-and-exception
      monad that records every effect in a trace.  *)

From Stdlib Require Import QArith Lia Lqa Ascii.
From stdpp Require Import gmap strings list sorting pretty.

Open Scope Z_scope.

(** ** Python text

    A Python [str] is a sequence of Unicode code points; [len], slicing,
    comparison and [sorted] all work on code points, so text is modelled
    as [list N] (not as bytes). *)

Abbreviation str := (list N).

(** [u "lit"] is the text of an ASCII literal of the source. *)
Fixpoint u (s : string) : str :=
  match s with
  | EmptyString => []
  | String a s' => N_of_ascii a :: u s'
  end.

(** [utf8 "lit"] is the text of a literal of the source that has
    characters beyond ASCII: the literal's bytes decoded as UTF-8. *)
Fixpoint utf8 (s : string) : str :=
  match s with
  | EmptyString => []
  | String a s1 =>
      let b := N_of_ascii a in
      if (b <? 128)%N then b :: utf8 s1
      else if (b <? 224)%N then
        match s1 with
        | String a2 s2 =>
            ((b - 192) * 64 + (N_of_ascii a2 - 128))%N :: utf8 s2
        | _ => []
        end
      else if (b <? 240)%N then
        match s1 with
        | String a2 (String a3 s3) =>
            ((b - 224) * 4096 + (N_of_ascii a2 - 128) * 64
             + (N_of_ascii a3 - 128))%N :: utf8 s3
        | _ => []
        end
      else
        match s1 with
        | String a2 (String a3 (String a4 s4)) =>
            ((b - 240) * 262144 + (N_of_ascii a2 - 128) * 4096
             + (N_of_ascii a3 - 128) * 64 + (N_of_ascii a4 - 128))%N :: utf8 s4
        | _ => []
        end
  end.

(** ** Values held by an entry

    [feedparser] fills an entry with text, with [time.struct_time] for
    the parsed dates, and with [None] where it could not parse; integers
    are kept as a further scalar the [dict] annotation allows. *)

Record struct_time := StructTime {
  tm_year : Z; tm_mon : Z; tm_mday : Z;
  tm_hour : Z; tm_min : Z; tm_sec : Z;
  tm_wday : Z; tm_yday : Z; tm_isdst : Z
}.

Inductive value :=
  | VNone
  | VStr (s : str)
  | VInt (z : Z)
  | VTime (t : struct_time).

Global Instance struct_time_eq_dec : EqDecision struct_time.
Proof. solve_decision. Defined.
Global Instance value_eq_dec : EqDecision value.
Proof. solve_decision. Defined.

(** An entry is a [dict] from field names to values. *)
Abbreviation dict := (gmap str value).

(** [bool(v)]: [None], the empty string and zero are falsy; a
    [struct_time] is a 9-tuple, hence truthy. *)
Definition truthy (v : value) : bool :=
  match v with
  | VNone => false
  | VStr s => negb (bool_decide (s = []))
  | VInt z => negb (z =? 0)
  | VTime _ => true
  end.

(** [a or b] *)
Definition py_or (a b : value) : value := if truthy a then a else b.

(** [d.get(k)] and [d.get(k, default)] *)
Definition dict_get (d : dict) (k : str) : value := default VNone (d !! k).
Definition dict_get_default (d : dict) (k : str) (dflt : value) : value :=
  default dflt (d !! k).

Definition str_of_Z (z : Z) : str := u (pretty z).

(** [str(v)], which is also what an f-string field [{v}] renders. *)
Definition py_str (v : value) : str :=
  match v with
  | VNone => u "None"
  | VStr s => s
  | VInt z => str_of_Z z
  | VTime t =>
      u "time.struct_time(tm_year=" ++ str_of_Z (tm_year t) ++
      u ", tm_mon=" ++ str_of_Z (tm_mon t) ++
      u ", tm_mday=" ++ str_of_Z (tm_mday t) ++
      u ", tm_hour=" ++ str_of_Z (tm_hour t) ++
      u ", tm_min=" ++ str_of_Z (tm_min t) ++
      u ", tm_sec=" ++ str_of_Z (tm_sec t) ++
      u ", tm_wday=" ++ str_of_Z (tm_wday t) ++
      u ", tm_yday=" ++ str_of_Z (tm_yday t) ++
      u ", tm_isdst=" ++ str_of_Z (tm_isdst t) ++ u ")"
  end.

(** ** Identity extractor (lines 85-92) *)

Definition extract_entry_id (entry : dict) : str :=
  let entry_id := py_or (dict_get entry (u "id")) (dict_get entry (u "guid")) in
  if truthy entry_id then py_str entry_id
  else
    let link := dict_get_default entry (u "link") (VStr []) in
    let title := dict_get_default entry (u "title") (VStr []) in
    py_str link ++ u "::" ++ py_str title.


(** ** Exceptions, effects and the world

    A call either returns or raises; [sys.exit(n)] raises [SystemExit]. *)

Inductive exn :=
  | TypeError
  | AttributeError
  | OverflowError
  | RuntimeError
  | URLError
  | JSONDecodeError
  | FileNotFoundError
  | SystemExit (code : Z).

Inductive outcome (A : Type) :=
  | Ok (a : A)
  | Raise (e : exn).
Arguments Ok {A} a.
Arguments Raise {A} e.

(** What [feedparser.parse] hands back: the feed's own fields and its
    entries. *)
Record feed := Feed { feed_feed : dict; feed_entries : list dict }.

(** What [urllib.request.urlopen] does with a request: it returns a
    response with a status, or raises (time-out, refused connection,
    HTTP error status). *)
Inductive http_result :=
  | HttpStatus (status : Z)
  | HttpRaise.

(** The effects of a run, in the order they happen. *)
Inductive event :=
  | EvCreateConfig (content : str)   (* ensure_config_exists wrote rss.config *)
  | EvCreateHistory (content : str)  (* ensure_history_exists wrote data.json *)
  | EvPrint (msg : str)
  | EvFetch (url : str)              (* feedparser.parse(url) *)
  | EvSleep
  | EvSend (url : str) (chat_id text : str)  (* the POST of send_to_telegram *)
  | EvSaveHistory (content : str).   (* save_history rewrote data.json *)

Global Instance event_eq_dec : EqDecision event.
Proof. solve_decision. Defined.

(** The state a run reads and changes.  Files hold their text as Python
    reads it in text mode; [None] is a file that does not exist. *)
Record world := World {
  env_token : option str;      (* os.getenv("TELEGRAM_BOT_TOKEN") *)
  config_file : option str;    (* rss.config *)
  history_file : option str;   (* data.json *)
  clock_calls : nat;           (* how many times time.time() was called *)
  trace : list event
}.

Definition M (A : Type) : Type := world → outcome A * world.

Definition ret {A} (a : A) : M A := λ w, (Ok a, w).
Definition raise {A} (e : exn) : M A := λ w, (Raise e, w).
Definition bind {A B} (m : M A) (k : A → M B) : M B :=
  λ w, match m w with
       | (Ok a, w') => k a w'
       | (Raise e, w') => (Raise e, w')
       end.
Definition lift {A} (o : outcome A) : M A := λ w, (o, w).

Notation "'let*' x ':=' m 'in' k" := (bind m (λ x, k))
  (at level 10, x pattern, m at level 100, k at level 200).
Notation "m '>>' k" := (bind m (λ _, k))
  (at level 90, right associativity).

(** The world after one more call of [time.time()]. *)
Definition tick (w : world) : world :=
  World (env_token w) (config_file w) (history_file w)
        (S (clock_calls w)) (trace w).

Definition emit (ev : event) : M unit :=
  λ w, (Ok tt, World (env_token w) (config_file w) (history_file w)
                     (clock_calls w) (trace w ++ [ev])).

(** The exit status the shell sees. *)
Definition exit_status {A} (o : outcome A) : Z :=
  match o with
  | Ok _ => 0
  | Raise (SystemExit code) => code
  | Raise _ => 1
  end.

(** The collaborators the program calls but does not define: the clock
    ([time_time k] is what the k-th call of [time.time()] returns), the
    conversion [time.mktime] ([None] where it raises [OverflowError]),
    the feed parser and the transport.  The latter two may answer
    differently as the run proceeds, so they see the trace so far.
    Times are seconds as rationals: the floats of the source are taken
    as exact, their rounding is not modelled. *)
Class Collaborators := {
  time_time : nat → Q;
  mktime : struct_time → option Q;
  feedparser_parse : list event → str → feed;
  urlopen : list event → str → str → str → http_result
}.

Section Program.
Context `{Collaborators}.

(** ** Freshness filter (lines 96-114) *)

Definition time_mktime (v : value) : outcome Q :=
  match v with
  | VTime t => match mktime t with
               | Some secs => Ok secs
               | None => Raise OverflowError
               end
  | _ => Raise TypeError
  end.

(** [return time.mktime(parsed_time)] *)
Definition return_mktime (parsed_time : value) : outcome (option Q) :=
  match time_mktime parsed_time with
  | Ok secs => Ok (Some secs)
  | Raise e => Raise e
  end.

Fixpoint first_parsed_time (keys : list str) (entry : dict) : outcome (option Q) :=
  match keys with
  | [] => Ok None
  | key :: keys' =>
      let parsed_time := dict_get entry key in
      if truthy parsed_time then return_mktime parsed_time
      else first_parsed_time keys' entry
  end.

Definition extract_entry_timestamp (entry : dict) : outcome (option Q) :=
  first_parsed_time
    [u "published_parsed"; u "updated_parsed"; u "created_parsed"] entry.

Definition time_time_call : M Q :=
  λ w, (Ok (time_time (clock_calls w)), tick w).

Definition is_recent_entry (entry : dict) (max_days : Z) : M bool :=
  let* timestamp := lift (extract_entry_timestamp entry) in
  match timestamp with
  | None => ret false
  | Some timestamp =>
      let max_age_seconds := max_days * 24 * 60 * 60 in
      let* now := time_time_call in
      ret (Qle_bool (now - timestamp) (inject_Z max_age_seconds))
  end.

(** ** Selection (lines 201-210 of [main])

    The loop over the fetched entries, with its two accumulators: the
    list [new_entries] it appends to and the set [history] it adds to. *)

Definition MAX_FETCH_DAYS : Z := 1.

Fixpoint select_loop (entries : list dict) (new_entries : list dict)
    (history : gset str) : M (list dict * gset str) :=
  match entries with
  | [] => ret (new_entries, history)
  | entry :: entries' =>
      let* recent := is_recent_entry entry MAX_FETCH_DAYS in
      if negb recent then select_loop entries' new_entries history
      else
        let entry_id := extract_entry_id entry in
        if decide (entry_id ∈ history) then
          select_loop entries' new_entries history
        else
          select_loop entries' (new_entries ++ [entry]) ({[entry_id]} ∪ history)
  end.

(** ** Formatter (lines 118-147) *)

(** [text[:stop]]: a negative [stop] counts from the end. *)
Definition slice_to (text : str) (stop : Z) : str :=
  if 0 <=? stop then take (Z.to_nat stop) text
  else take (Z.to_nat (Z.of_nat (length text) + stop)) text.

Definition shorten_text (text : str) (max_length : Z) : str :=
  if Z.of_nat (length text) <=? max_length then text
  else slice_to text (max_length - 3) ++ u "...".

(** [html.escape(text, quote=True)] rewrites five characters (the
    ampersand, the two angle brackets and the two quotes: code points
    38, 60, 62, 34, 39) and leaves every other one. *)
Definition html_escape_char (c : N) : str :=
  if (c =? 38)%N then u "&amp;"
  else if (c =? 60)%N then u "&lt;"
  else if (c =? 62)%N then u "&gt;"
  else if (c =? 34)%N then u "&quot;"
  else if (c =? 39)%N then u "&#x27;"
  else [c].

Definition html_escape (text : str) : str := text ≫= html_escape_char.

(** Called on what [entry.get] returned: anything but text has no
    [replace] method, and [html.escape] raises. *)
Definition escape_html (text : value) : outcome str :=
  match text with
  | VStr s => Ok (html_escape s)
  | _ => Raise AttributeError
  end.

(** [str.isspace] of one character: the characters [str.strip()]
    removes. *)
Definition py_isspace (c : N) : bool :=
  ((9 <=? c) && (c <=? 13) || (28 <=? c) && (c <=? 32)
   || (c =? 133) || (c =? 160) || (c =? 5760)
   || (8192 <=? c) && (c <=? 8202)
   || (c =? 8232) || (c =? 8233) || (c =? 8239) || (c =? 8287)
   || (c =? 12288))%N.

Fixpoint py_lstrip (s : str) : str :=
  match s with
  | [] => []
  | c :: s' => if py_isspace c then py_lstrip s' else s
  end.

Definition py_rstrip (s : str) : str := reverse (py_lstrip (reverse s)).
Definition py_strip (s : str) : str := py_rstrip (py_lstrip s).

(** [s.replace(old, new)] for one-character [old] and [new]. *)
Definition replace_char (old new : N) (s : str) : str :=
  (λ c, if (c =? old)%N then new else c) <$> s.

(** [sep.join(parts)] *)
Fixpoint py_join (sep : str) (parts : list str) : str :=
  match parts with
  | [] => []
  | [p] => p
  | p :: parts' => p ++ sep ++ py_join sep parts'
  end.

Definition NO_TITLE : str := utf8 "(无标题)".
Definition UNKNOWN_SOURCE : str := utf8 "未知来源".
Definition NEWLINE : N := 10%N.
Definition SPACE : N := 32%N.

(** [summary.replace("\n", " ").strip()], then [shorten_text] with its
    default bound of 200. *)
Definition normalize_summary (summary : value) : outcome str :=
  match summary with
  | VStr s => Ok (shorten_text (py_strip (replace_char NEWLINE SPACE s)) 200)
  | _ => Raise AttributeError
  end.

Definition build_message (entry : dict) : outcome str :=
  match escape_html (dict_get_default entry (u "title") (VStr NO_TITLE)) with
  | Raise e => Raise e
  | Ok title =>
  match escape_html
          (dict_get_default entry (u "source_title") (VStr UNKNOWN_SOURCE)) with
  | Raise e => Raise e
  | Ok source =>
  match normalize_summary
          (py_or (dict_get_default entry (u "summary") (VStr []))
                 (dict_get_default entry (u "description") (VStr []))) with
  | Raise e => Raise e
  | Ok summary =>
  let summary := html_escape summary in
  match escape_html (dict_get_default entry (u "link") (VStr [])) with
  | Raise e => Raise e
  | Ok link =>
      let parts := [u "[" ++ source ++ utf8 "] 📰 <b>" ++ title ++ u "</b>"] in
      let parts :=
        if bool_decide (summary = []) then parts
        else parts ++ [[]] ++ [utf8 "📝 " ++ summary] in
      let parts :=
        if bool_decide (link = []) then parts
        else parts ++ [utf8 "🔗 " ++ link] in
      Ok (py_join [NEWLINE] parts)
  end end end end.

(** ** The JSON text of the seen-set store

    [json.dump(items, file, ensure_ascii=False, indent=2)] for a list of
    strings: the two-character escapes, [\u00xx] for the other control
    characters, everything else as it is. *)

Definition hex_digit (n : N) : N := (if n <? 10 then 48 + n else 87 + n)%N.

Definition json_escape_char (c : N) : str :=
  (if c =? 34 then [92; 34]
   else if c =? 92 then [92; 92]
   else if c =? 10 then [92; 110]
   else if c =? 13 then [92; 114]
   else if c =? 9 then [92; 116]
   else if c =? 8 then [92; 98]
   else if c =? 12 then [92; 102]
   else if c <? 32 then
     [92; 117; 48; 48; hex_digit (c / 16); hex_digit (c mod 16)]
   else [c])%N.

Definition json_dump_str (s : str) : str :=
  [34%N] ++ (s ≫= json_escape_char) ++ [34%N].

Definition json_dump (items : list str) : str :=
  match items with
  | [] => u "[]"
  | _ => u "[" ++ [NEWLINE] ++ u "  "
         ++ py_join (u "," ++ [NEWLINE] ++ u "  ") (json_dump_str <$> items)
         ++ [NEWLINE] ++ u "]"
  end.

(** What [json_dump] writes after the first item: the remaining items,
    each after a comma and a line break, and the closing bracket. *)
Fixpoint json_tail (items : list str) : str :=
  match items with
  | [] => [NEWLINE] ++ u "]"
  | item :: items' =>
      u "," ++ [NEWLINE] ++ u "  " ++ json_dump_str item ++ json_tail items'
  end.

(** [json.load] on the documents the store holds, arrays of strings.
    The scanner accepts JSON's white space between tokens, every string
    escape including [\uXXXX] with surrogate pairs, and rejects raw
    control characters, trailing commas and trailing data as the
    library does.  [None] stands for [JSONDecodeError]; JSON of another
    shape (objects, numbers, nested arrays) is outside this model and
    answered [None] as well. *)

Definition hex_value (c : N) : option N :=
  (if (48 <=? c) && (c <=? 57) then Some (c - 48)
   else if (97 <=? c) && (c <=? 102) then Some (c - 87)
   else if (65 <=? c) && (c <=? 70) then Some (c - 55)
   else None)%N.

Definition hex4 (a b c d : N) : option N :=
  match hex_value a, hex_value b, hex_value c, hex_value d with
  | Some x3, Some x2, Some x1, Some x0 =>
      Some (x3 * 4096 + x2 * 256 + x1 * 16 + x0)%N
  | _, _, _, _ => None
  end.

Definition json_isspace (c : N) : bool :=
  ((c =? 32) || (c =? 9) || (c =? 10) || (c =? 13))%N.

Inductive json_state :=
  | JStart        (* before the opening bracket *)
  | JOpen         (* after it: a string or the closing bracket *)
  | JString       (* inside a string *)
  | JAfterItem    (* after a string: a comma or the closing bracket *)
  | JAfterComma   (* after a comma: a string *)
  | JEnd.         (* after the closing bracket *)

Definition simple_escape (c : N) : option N :=
  (if c =? 34 then Some 34
   else if c =? 92 then Some 92
   else if c =? 47 then Some 47
   else if c =? 98 then Some 8
   else if c =? 102 then Some 12
   else if c =? 110 then Some 10
   else if c =? 114 then Some 13
   else if c =? 116 then Some 9
   else None)%N.

Definition is_high_surrogate (n : N) : bool := ((55296 <=? n) && (n <=? 56319))%N.
Definition is_low_surrogate (n : N) : bool := ((56320 <=? n) && (n <=? 57343))%N.

(** [items] are the strings read so far, [acc] the characters of the
    string being read (both oldest first). *)
Fixpoint json_scan (st : json_state) (items : list str) (acc : str)
    (s : str) : option (list str) :=
  match s with
  | [] => match st with JEnd => Some items | _ => None end
  | c :: s' =>
      match st with
      | JStart =>
          if json_isspace c then json_scan JStart items acc s'
          else if (c =? 91)%N then json_scan JOpen items acc s'
          else None
      | JOpen =>
          if json_isspace c then json_scan JOpen items acc s'
          else if (c =? 93)%N then json_scan JEnd items acc s'
          else if (c =? 34)%N then json_scan JString items [] s'
          else None
      | JAfterComma =>
          if json_isspace c then json_scan JAfterComma items acc s'
          else if (c =? 34)%N then json_scan JString items [] s'
          else None
      | JAfterItem =>
          if json_isspace c then json_scan JAfterItem items acc s'
          else if (c =? 44)%N then json_scan JAfterComma items acc s'
          else if (c =? 93)%N then json_scan JEnd items acc s'
          else None
      | JEnd =>
          if json_isspace c then json_scan JEnd items acc s' else None
      | JString =>
          if (c =? 34)%N then json_scan JAfterItem (items ++ [acc]) [] s'
          else if (c =? 92)%N then
            match s' with
            | [] => None
            | e :: s1 =>
                if (e =? 117)%N then
                  match s1 with
                  | h1 :: h2 :: h3 :: h4 :: s2 =>
                      match hex4 h1 h2 h3 h4 with
                      | None => None
                      | Some hi =>
                          match s2 with
                          | b :: v :: l1 :: l2 :: l3 :: l4 :: s3 =>
                              if is_high_surrogate hi && (b =? 92)%N
                                 && (v =? 117)%N
                              then
                                match hex4 l1 l2 l3 l4 with
                                | Some lo =>
                                    if is_low_surrogate lo
                                    then json_scan JString items
                                           (acc ++ [65536 + (hi - 55296) * 1024
                                                     + (lo - 56320)]%N) s3
                                    else json_scan JString items (acc ++ [hi]) s2
                                | None => json_scan JString items (acc ++ [hi]) s2
                                end
                              else json_scan JString items (acc ++ [hi]) s2
                          | _ => json_scan JString items (acc ++ [hi]) s2
                          end
                      end
                  | _ => None
                  end
                else
                  match simple_escape e with
                  | Some d => json_scan JString items (acc ++ [d]) s1
                  | None => None
                  end
            end
          else if (c <? 32)%N then None
          else json_scan JString items (acc ++ [c]) s'
      end
  end.

Definition json_load (text : str) : option (list str) :=
  json_scan JStart [] [] text.

(** ** Constants and bootstrap (lines 25-53) *)

Definition TELEGRAM_CHAT_ID : str := u "-1003514584440".
Definition TELEGRAM_API_BASE : str := u "https://api.telegram.org".

Definition default_content : str :=
  utf8 "# 在这里填写 RSS 订阅地址，每行一个" ++ [NEWLINE]
  ++ utf8 "# 以 # 开头的行会被忽略" ++ [NEWLINE]
  ++ u "https://news.google.com/rss?hl=zh-CN&gl=CN&ceid=CN:zh-Hans" ++ [NEWLINE].

Definition write_config (content : str) : M unit :=
  λ w, (Ok tt, World (env_token w) (Some content) (history_file w)
                     (clock_calls w) (trace w)).

Definition write_history (content : str) : M unit :=
  λ w, (Ok tt, World (env_token w) (config_file w) (Some content)
                     (clock_calls w) (trace w)).

Definition ensure_config_exists : M unit :=
  λ w, match config_file w with
       | Some _ => ret tt w
       | None =>
           (write_config default_content
            >> emit (EvCreateConfig default_content)) w
       end.

Definition ensure_history_exists : M unit :=
  λ w, match history_file w with
       | Some _ => ret tt w
       | None =>
           (write_history (json_dump [])
            >> emit (EvCreateHistory (json_dump []))) w
       end.

(** ** The address list (lines 57-66) *)

(** The lines of a text, without their line ends. *)
Fixpoint split_on (sep : N) (s : str) : list str :=
  match s with
  | [] => [[]]
  | c :: s' =>
      if (c =? sep)%N then [] :: split_on sep s'
      else match split_on sep s' with
           | line :: lines => (c :: line) :: lines
           | [] => [[c]]
           end
  end.

Definition startswith_hash (s : str) : bool :=
  match s with
  | c :: _ => (c =? 35)%N
  | [] => false
  end.

Fixpoint config_urls (lines : list str) (urls : list str) : list str :=
  match lines with
  | [] => urls
  | line :: lines' =>
      let stripped := py_strip line in
      if bool_decide (stripped = []) || startswith_hash stripped
      then config_urls lines' urls
      else config_urls lines' (urls ++ [stripped])
  end.

Definition load_config_urls : M (list str) :=
  λ w, match config_file w with
       | None => raise FileNotFoundError w
       | Some text => ret (config_urls (split_on NEWLINE text) []) w
       end.

(** ** The seen-set store (lines 70-81) *)

(** Python compares strings by code point, the first difference
    deciding. *)
Fixpoint str_leb (a b : str) : bool :=
  match a, b with
  | [], _ => true
  | _ :: _, [] => false
  | x :: a', y :: b' =>
      if (x <? y)%N then true
      else if (x =? y)%N then str_leb a' b'
      else false
  end.

Definition str_le (a b : str) : Prop := str_leb a b = true.

Global Instance str_le_dec : RelDecision str_le.
Proof. intros a b. unfold str_le. apply _. Defined.

Definition sorted (items : list str) : list str := merge_sort str_le items.

Definition load_history : M (gset str) :=
  λ w, match history_file w with
       | None => raise FileNotFoundError w
       | Some text =>
           match json_load text with
           | Some data => ret (list_to_set data) w
           | None => raise JSONDecodeError w
           end
       end.

(** [history] is any iterable of strings; [main] passes its set, whose
    iteration order is the order of [elements]. *)
Definition save_history (history : list str) : M unit :=
  let content := json_dump (sorted history) in
  write_history content >> emit (EvSaveHistory content).

(** ** Transport and fetch (lines 151-179) *)

(** The request carries [chat_id] and [text] (with the fixed
    [parse_mode] and [disable_web_page_preview]); the transport is asked
    before the attempt is recorded. *)
Definition send_to_telegram (token chat_id message : str) : M unit :=
  let url := TELEGRAM_API_BASE ++ u "/bot" ++ token ++ u "/sendMessage" in
  λ w, (emit (EvSend url chat_id message) >>
        match urlopen (trace w) url chat_id message with
        | HttpStatus status =>
            if status =? 200 then ret tt else raise RuntimeError
        | HttpRaise => raise URLError
        end) w.

Definition set_source_title (source_title : value) (entry : dict) : dict :=
  <[u "source_title" := source_title]> entry.

Fixpoint fetch_loop (urls : list str) (entries : list dict) : M (list dict) :=
  match urls with
  | [] => ret entries
  | url :: urls' =>
      λ w,
      let feed := feedparser_parse (trace w) url in
      let source_title :=
        py_or (py_or (dict_get (feed_feed feed) (u "title"))
                     (dict_get (feed_feed feed) (u "subtitle")))
              (VStr url) in
      (emit (EvFetch url) >>
       emit EvSleep >>
       fetch_loop urls'
         (entries ++ (set_source_title source_title <$> feed_entries feed))) w
  end.

Definition fetch_entries (urls : list str) : M (list dict) :=
  fetch_loop urls [].

(** ** The run (lines 183-219) *)

Definition MSG_NO_TOKEN : str :=
  utf8 "未获取到 TELEGRAM_BOT_TOKEN，请在环境变量中配置".
Definition MSG_NO_URLS : str := utf8 "配置文件中没有可用的 RSS 地址".

Definition getenv_token : M (option str) := λ w, (Ok (env_token w), w).

(** Lines 215-217. *)
Fixpoint send_loop (token : str) (new_entries : list dict) : M unit :=
  match new_entries with
  | [] => ret tt
  | entry :: new_entries' =>
      let* message := lift (build_message entry) in
      send_to_telegram token TELEGRAM_CHAT_ID message >>
      send_loop token new_entries'
  end.

Definition main : M unit :=
  ensure_config_exists >>
  ensure_history_exists >>
  let* token := getenv_token in
  match token with
  | None | Some [] => emit (EvPrint MSG_NO_TOKEN) >> raise (SystemExit 1)
  | Some token =>
      let* urls := load_config_urls in
      if bool_decide (urls = []) then emit (EvPrint MSG_NO_URLS)
      else
        let* history := load_history in
        let* entries := fetch_entries urls in
        let* (new_entries, history) := select_loop entries [] history in
        if bool_decide (new_entries = []) then ret tt
        else
          send_loop token new_entries >>
          save_history (elements history)
  end.

End Program.

(** ** Notions used in the statements *)

(** A field that is missing, or holds a falsy value ([None], the empty
    string, zero): what [entry.get(k) or ...] passes over. *)
Definition absent_or_falsy (entry : dict) (k : str) : Prop :=
  truthy (dict_get entry k) = false.

(** The text an f-string renders for a field with default [""]. *)
Definition field_text (entry : dict) (k : str) : str :=
  py_str (dict_get_default entry k (VStr [])).

(** A world with a fixed clock, an identity-like [mktime] that reads the
    seconds field, one feed and a transport that always answers 200:
    used to run the program on concrete inputs. *)
Definition sample_collaborators (now : Q) (entries : list dict) : Collaborators := {|
  time_time := λ _, now;
  mktime := λ t, Some (inject_Z (tm_sec t));
  feedparser_parse := λ _ _, Feed ∅ entries;
  urlopen := λ _ _ _ _, HttpStatus 200
|}.

Definition at_seconds (secs : Z) : value :=
  VTime (StructTime 1970 1 1 0 0 secs 3 1 0).

(** An entry with a link and a title and no id. *)
Definition entry_a_b : dict :=
  <[u "link" := VStr (u "a")]> (<[u "title" := VStr (u "b")]> ∅).

(** Two entries without id whose links and titles differ, the
    separator occurring in one link and in one title. *)
Definition entry_ab_c : dict :=
  <[u "link" := VStr (u "a::b")]> (<[u "title" := VStr (u "c")]> ∅).
Definition entry_a_bc : dict :=
  <[u "link" := VStr (u "a")]> (<[u "title" := VStr (u "b::c")]> ∅).

(** Two entries dated 100 s and 200 s before the clock reading, with
    the same link and title and no id: a batch on which the pass can be
    run. *)
Definition entry_t1 : dict :=
  <[u "link" := VStr (u "http://x/1")]> (<[u "title" := VStr (u "T")]>
    (<[u "published_parsed" := at_seconds 999900]> ∅)).
Definition entry_t2 : dict :=
  <[u "link" := VStr (u "http://x/1")]> (<[u "title" := VStr (u "T")]>
    (<[u "published_parsed" := at_seconds 999800]> ∅)).
Definition world0 : world := World (Some (u "TOKEN")) None None 0 [].

(** A field that, when present, holds text; and its text, with a
    default for a missing field. *)
Definition text_field (entry : dict) (k : str) : Prop :=
  ∀ v, entry !! k = Some v → ∃ s, v = VStr s.

Definition field_or (entry : dict) (k : str) (dflt : str) : str :=
  match entry !! k with
  | Some (VStr s) => s
  | _ => dflt
  end.

(** The entry of the data model as far as the formatter reads it:
    title, source, body and link are text where present. *)
Definition text_entry (entry : dict) : Prop :=
  text_field entry (u "title") ∧ text_field entry (u "source_title")
  ∧ text_field entry (u "summary") ∧ text_field entry (u "description")
  ∧ text_field entry (u "link").

(** The body the formatter starts from (the summary, or the description
    when the summary is missing or empty), and the body it measures:
    newlines replaced by spaces, surrounding white space stripped. *)
Definition entry_body (entry : dict) : str :=
  if bool_decide (field_or entry (u "summary") [] = [])
  then field_or entry (u "description") []
  else field_or entry (u "summary") [].

Definition normalized_body (entry : dict) : str :=
  py_strip (replace_char NEWLINE SPACE (entry_body entry)).

(** A summary of 200 letters followed by one space. *)
Definition entry_padded : dict :=
  <[u "summary" := VStr (replicate 200 97%N ++ [SPACE])]> ∅.

(** In a pass started in world [w], the entry [e] that comes after the
    entries [before] is recent when its turn comes.  (The world at that
    point depends on [w] and on [before] only, not on the seen-set.) *)
Definition recent_at_turn `{Collaborators} (before : list dict) (e : dict)
    (w : world) : Prop :=
  (is_recent_entry e MAX_FETCH_DAYS (select_loop before [] ∅ w).2).1 = Ok true.

(** The long literals stay folded in goals. *)
Arguments default_content : simpl never.
Arguments MSG_NO_TOKEN : simpl never.
Arguments MSG_NO_URLS : simpl never.
Arguments TELEGRAM_API_BASE : simpl never.
Arguments TELEGRAM_CHAT_ID : simpl never.
Arguments json_dump : simpl never.

(** The world once the two files are sure to exist: after
    [ensure_config_exists] and [ensure_history_exists]. *)
Definition bootstrap (w : world) : world :=
  (ensure_history_exists (ensure_config_exists w).2).2.

Definition is_save (ev : event) : bool :=
  match ev with EvSaveHistory _ => true | _ => false end.
Definition is_send (ev : event) : bool :=
  match ev with EvSend _ _ _ => true | _ => false end.
Definition is_fetch (ev : event) : bool :=
  match ev with EvFetch _ => true | _ => false end.

(** An event that is neither network activity nor a save. *)
Definition quiet (ev : event) : Prop :=
  is_fetch ev = false ∧ is_send ev = false ∧ is_save ev = false.

(** [ev] is the send attempted for [entry]: the POST of its message to
    the channel. *)
Definition attempt_for (token : str) (entry : dict) (ev : event) : Prop :=
  ∃ message, build_message entry = Ok message
    ∧ ev = EvSend (TELEGRAM_API_BASE ++ u "/bot" ++ token ++ u "/sendMessage")
                  TELEGRAM_CHAT_ID message.

(** The value [build_message] takes the body from: the summary when it
    is truthy, else the description, each with the empty text as its
    default. *)
Definition chosen_body (entry : dict) : value :=
  py_or (dict_get_default entry (u "summary") (VStr []))
        (dict_get_default entry (u "description") (VStr [])).

(** The four characters that open or close markup and attribute values,
    and the ampersand that opens an entity. *)
Definition is_markup (c : N) : bool :=
  ((c =? 60) || (c =? 62) || (c =? 34) || (c =? 39))%N.
Definition is_special (c : N) : bool := ((c =? 38)%N || is_markup c).

Definition is_text (v : value) : Prop := ∃ s, v = VStr s.

(** A line of the address list that counts: not blank and no comment. *)
Definition is_address (stripped : str) : Prop :=
  stripped ≠ [] ∧ startswith_hash stripped = false.

Global Instance is_address_dec (stripped : str) : Decision (is_address stripped).
Proof. unfold is_address. apply _. Defined.

(** An entry whose timestamp can be extracted: the ones the selection
    pass reads the clock for. *)
Definition is_dated `{Collaborators} (entry : dict) : bool :=
  match extract_entry_timestamp entry with
  | Ok (Some _) => true
  | _ => false
  end.



(** The sample world with a transport that answers every request with
    the given result. *)
Definition sample_transport_collaborators (now : Q) (entries : list dict)
    (answer : http_result) : Collaborators := {|
  time_time := λ _, now;
  mktime := λ t, Some (inject_Z (tm_sec t));
  feedparser_parse := λ _ _, Feed ∅ entries;
  urlopen := λ _ _ _ _, answer
|}.

(** A world whose [data.json] holds one space. *)
Definition world_blank : world :=
  World (Some (u "TOKEN")) None (Some (u " ")) 0 [].

(** * Identity extractor *)

Section Identity.

Lemma u_nonempty (s : string) : s ≠ EmptyString → u s ≠ [].
Proof. by destruct s. Qed.

Lemma pretty_N_go_nonempty (x : N) (s : string) :
  s ≠ EmptyString → pretty_N_go x s ≠ EmptyString.
Proof.
  revert s. induction (N.lt_wf_0 x) as [x _ IH]; intros s Hs.
  destruct (decide (x = 0%N)) as [->|Hx]; [by rewrite pretty_N_go_0|].
  rewrite pretty_N_go_step by lia.
  apply IH; [apply N.div_lt; lia | done].
Qed.

Lemma pretty_Z_nonempty (z : Z) : pretty z ≠ EmptyString.
Proof.
  destruct z as [|p|p]; [done| |done].
  change (pretty (Z.pos p)) with (pretty_N (N.pos p)). unfold pretty_N.
  case_decide; [done|].
  rewrite pretty_N_go_step by lia. by apply pretty_N_go_nonempty.
Qed.

(** [str()] of a truthy value is never the empty string. *)
Lemma py_str_truthy_nonempty (v : value) : truthy v = true → py_str v ≠ [].
Proof.
  destruct v as [|s|z|t]; simpl; intros Hv; try done.
  - destruct s; [done | discriminate].
  - apply u_nonempty, pretty_Z_nonempty.
Qed.

Lemma extract_entry_id_unfold (entry : dict) :
  extract_entry_id entry =
    if truthy (dict_get entry (u "id")) then py_str (dict_get entry (u "id"))
    else if truthy (dict_get entry (u "guid"))
         then py_str (dict_get entry (u "guid"))
         else field_text entry (u "link") ++ u "::" ++ field_text entry (u "title").
Proof.
  unfold extract_entry_id, py_or, field_text.
  destruct (truthy (dict_get entry (u "id"))) eqn:Hid; [by rewrite Hid|].
  by destruct (truthy (dict_get entry (u "guid"))).
Qed.

(** The key is never the empty string. *)
Lemma extract_entry_id_nonempty (entry : dict) : extract_entry_id entry ≠ [].
Proof.
  rewrite extract_entry_id_unfold.
  destruct (truthy (dict_get entry (u "id"))) eqn:Hid;
    [by apply py_str_truthy_nonempty|].
  destruct (truthy (dict_get entry (u "guid"))) eqn:Hguid;
    [by apply py_str_truthy_nonempty|].
  intros Hnil. apply app_eq_nil in Hnil as [_ Hnil]. discriminate.
Qed.

(** C4 (as amended). The identity key is defined for every entry (the
    function has no failing path) and is: the text of the [id] field
    when that field is present and truthy; otherwise the text of the
    [guid] field when present and truthy; otherwise the link text, the
    separator and the title text, a missing link or title counting as
    empty.  The separator is the two-character [::]. *)
Theorem extract_entry_id_spec (entry : dict) :
  (∀ v, entry !! u "id" = Some v → truthy v = true →
        extract_entry_id entry = py_str v)
  ∧ (∀ v, absent_or_falsy entry (u "id") →
          entry !! u "guid" = Some v → truthy v = true →
          extract_entry_id entry = py_str v)
  ∧ (absent_or_falsy entry (u "id") → absent_or_falsy entry (u "guid") →
     extract_entry_id entry
     = field_text entry (u "link") ++ u "::" ++ field_text entry (u "title"))
  ∧ length (u "::") = 2%nat.
Proof.
  unfold absent_or_falsy. rewrite extract_entry_id_unfold.
  repeat split.
  - intros v Hv Ht. unfold dict_get. rewrite Hv. simpl. by rewrite Ht.
  - intros v Hid Hv Ht. rewrite Hid. unfold dict_get at 1 2. rewrite Hv.
    simpl. by rewrite Ht.
  - intros Hid Hguid. by rewrite Hid, Hguid.
Qed.

Lemma extract_entry_id_spec_witness :
  absent_or_falsy entry_a_b (u "id") ∧ absent_or_falsy entry_a_b (u "guid")
  ∧ extract_entry_id entry_a_b = u "a::b".
Proof.
  split; [reflexivity|]. split; [reflexivity|].
  apply (extract_entry_id_spec entry_a_b); reflexivity.
Defined.

(** C4 as stated fails.  For an entry with link [a], title [b] and no
    id or guid, no separator of three characters gives the key; and the
    separator of the source can occur in a link or a title, so that two
    entries that differ in link and in title get the same key. *)
Lemma extract_entry_id_separator_counterexample :
  (entry_a_b !! u "id" = None ∧ entry_a_b !! u "guid" = None
   ∧ ¬ ∃ sep : str, length sep = 3%nat
         ∧ extract_entry_id entry_a_b = u "a" ++ sep ++ u "b")
  ∧ (entry_ab_c !! u "link" ≠ entry_a_bc !! u "link"
     ∧ entry_ab_c !! u "title" ≠ entry_a_bc !! u "title"
     ∧ extract_entry_id entry_ab_c = extract_entry_id entry_a_bc).
Proof.
  split.
  - split; [reflexivity|]. split; [reflexivity|].
    intros (sep & Hlen & Hkey).
    apply (f_equal length) in Hkey. rewrite !length_app, Hlen in Hkey.
    vm_compute in Hkey. discriminate.
  - vm_compute. repeat split; discriminate.
Qed.

(** C10. An [id] that is present but the empty string is passed over:
    the key is the text of a truthy [guid], else the link-and-title
    key; and the key returned is never the empty string. *)
Theorem extract_entry_id_empty_id (entry : dict) :
  entry !! u "id" = Some (VStr []) →
  extract_entry_id entry =
    (if truthy (dict_get entry (u "guid"))
     then py_str (dict_get entry (u "guid"))
     else field_text entry (u "link") ++ u "::" ++ field_text entry (u "title"))
  ∧ (absent_or_falsy entry (u "guid") →
     extract_entry_id entry
     = field_text entry (u "link") ++ u "::" ++ field_text entry (u "title"))
  ∧ extract_entry_id entry ≠ [].
Proof.
  intros Hid.
  assert (truthy (dict_get entry (u "id")) = false) as Hf
    by (unfold dict_get; by rewrite Hid).
  split; [|split].
  - rewrite extract_entry_id_unfold. by rewrite Hf.
  - unfold absent_or_falsy. intros Hg.
    rewrite extract_entry_id_unfold. by rewrite Hf, Hg.
  - apply extract_entry_id_nonempty.
Qed.

Lemma extract_entry_id_empty_id_witness :
  let e : dict := <[u "id" := VStr []]> (<[u "guid" := VStr (u "g1")]> ∅) in
  e !! u "id" = Some (VStr []) ∧ extract_entry_id e = u "g1".
Proof.
  split; [reflexivity|].
  exact (proj1 (extract_entry_id_empty_id
    (<[u "id" := VStr []]> (<[u "guid" := VStr (u "g1")]> ∅)) eq_refl)).
Defined.

End Identity.

(** * Freshness filter *)

Section Freshness.
Context `{Collaborators}.

Lemma is_recent_entry_run (entry : dict) (max_days : Z) (w : world) :
  is_recent_entry entry max_days w =
    match extract_entry_timestamp entry with
    | Raise e => (Raise e, w)
    | Ok None => (Ok false, w)
    | Ok (Some ts) =>
        (Ok (Qle_bool (time_time (clock_calls w) - ts)
                      (inject_Z (max_days * 24 * 60 * 60))), tick w)
    end.
Proof.
  unfold is_recent_entry, bind, lift.
  by destruct (extract_entry_timestamp entry) as [[ts|]|e].
Qed.

Lemma extract_entry_timestamp_priority (entry : dict) :
  extract_entry_timestamp entry =
    if truthy (dict_get entry (u "published_parsed"))
    then return_mktime (dict_get entry (u "published_parsed"))
    else if truthy (dict_get entry (u "updated_parsed"))
    then return_mktime (dict_get entry (u "updated_parsed"))
    else if truthy (dict_get entry (u "created_parsed"))
    then return_mktime (dict_get entry (u "created_parsed"))
    else Ok None.
Proof. reflexivity. Qed.

Lemma select_loop_cons (entry : dict) (entries new_entries : list dict)
    (history : gset str) (w : world) :
  select_loop (entry :: entries) new_entries history w =
    match extract_entry_timestamp entry with
    | Raise e => (Raise e, w)
    | Ok None => select_loop entries new_entries history w
    | Ok (Some ts) =>
        if Qle_bool (time_time (clock_calls w) - ts)
                    (inject_Z (MAX_FETCH_DAYS * 24 * 60 * 60))
        then
          if decide (extract_entry_id entry ∈ history)
          then select_loop entries new_entries history (tick w)
          else select_loop entries (new_entries ++ [entry])
                 ({[extract_entry_id entry]} ∪ history) (tick w)
        else select_loop entries new_entries history (tick w)
    end.
Proof.
  cbn [select_loop]. unfold bind at 1. rewrite is_recent_entry_run.
  destruct (extract_entry_timestamp entry) as [[ts|]|e]; [|done..].
  destruct (Qle_bool _ _); simpl; [|done]. by destruct (decide _).
Qed.

(** Every selected entry carries a timestamp that could be extracted. *)
Lemma select_loop_timestamped (entries new_entries : list dict)
    (history : gset str) (w : world) sel h' w' :
  select_loop entries new_entries history w = (Ok (sel, h'), w') →
  ∀ e, e ∈ sel →
    e ∈ new_entries ∨ ∃ ts, extract_entry_timestamp e = Ok (Some ts).
Proof.
  revert new_entries history w.
  induction entries as [|entry entries IH]; intros new_entries history w Hrun e He.
  - cbn in Hrun. unfold ret in Hrun. simplify_eq. by left.
  - rewrite select_loop_cons in Hrun.
    destruct (extract_entry_timestamp entry) as [[ts|]|ex] eqn:Hts; [| |done].
    + destruct (Qle_bool _ _); [destruct (decide _)|]; try (by eapply IH).
      destruct (IH _ _ _ Hrun e He) as [Hin|?]; [|by right].
      apply elem_of_app in Hin as [?|Hin]; [by left|].
      apply list_elem_of_singleton in Hin as ->. right. eauto.
    + by eapply IH.
Qed.

(** C3. [is_recent_entry] answers true exactly when a timestamp can be
    extracted and the entry's age, the clock reading minus the
    timestamp, is at most [max_days * 86400] seconds.  The timestamp is
    taken from the first truthy one of the published, updated and
    created fields.  The bound is inclusive: an age of exactly
    [max_days * 86400] is accepted, one second more is not.  An entry
    with no timestamp is rejected without reading the clock, and no
    selection pass ever selects it, whatever the seen-set. *)
Theorem is_recent_entry_spec (entry : dict) (max_days : Z) (w : world) :
  ((is_recent_entry entry max_days w).1 = Ok true ↔
     ∃ ts, extract_entry_timestamp entry = Ok (Some ts)
           ∧ (time_time (clock_calls w) - ts <= inject_Z (max_days * 86400))%Q)
  ∧ extract_entry_timestamp entry =
      (if truthy (dict_get entry (u "published_parsed"))
       then return_mktime (dict_get entry (u "published_parsed"))
       else if truthy (dict_get entry (u "updated_parsed"))
       then return_mktime (dict_get entry (u "updated_parsed"))
       else if truthy (dict_get entry (u "created_parsed"))
       then return_mktime (dict_get entry (u "created_parsed"))
       else Ok None)
  ∧ (∀ ts, extract_entry_timestamp entry = Ok (Some ts) →
       (time_time (clock_calls w) - ts == inject_Z (max_days * 86400))%Q →
       (is_recent_entry entry max_days w).1 = Ok true)
  ∧ (∀ ts, extract_entry_timestamp entry = Ok (Some ts) →
       (time_time (clock_calls w) - ts == inject_Z (max_days * 86400) + 1)%Q →
       (is_recent_entry entry max_days w).1 = Ok false)
  ∧ (extract_entry_timestamp entry = Ok None →
       is_recent_entry entry max_days w = (Ok false, w))
  ∧ (extract_entry_timestamp entry = Ok None →
       ∀ entries history w0 sel h' w',
         select_loop entries [] history w0 = (Ok (sel, h'), w') →
         entry ∉ sel).
Proof.
  assert (max_days * 24 * 60 * 60 = max_days * 86400) as Hsecs by lia.
  rewrite is_recent_entry_run, Hsecs.
  split; [|split; [|split; [|split; [|split]]]].
  - destruct (extract_entry_timestamp entry) as [[ts|]|e]; simpl.
    + split.
      * intros [= Hle]. exists ts. split; [done|]. by apply Qle_bool_iff.
      * intros (ts' & [= <-] & Hle). f_equal. by apply Qle_bool_iff.
    + split; [done|]. by intros (ts & ? & _).
    + split; [done|]. by intros (ts & ? & _).
  - apply extract_entry_timestamp_priority.
  - intros ts -> Hage. simpl. f_equal. apply Qle_bool_iff. rewrite Hage.
    apply Qle_refl.
  - intros ts -> Hage. simpl. f_equal. apply not_true_is_false.
    rewrite Qle_bool_iff, Hage. lra.
  - by intros ->.
  - intros Hnone entries history w0 sel h' w' Hrun Hin.
    destruct (select_loop_timestamped _ _ _ _ _ _ _ Hrun _ Hin) as [Hnil|[ts Hts]].
    + by apply elem_of_nil in Hnil.
    + congruence.
Qed.

End Freshness.

Lemma is_recent_entry_spec_witness :
  let C := sample_collaborators 1000000 [] in
  let e : dict := <[u "updated_parsed" := at_seconds 913600]> ∅ in
  let w := World None None None 0 [] in
  @extract_entry_timestamp C e = Ok (Some (inject_Z 913600))
  ∧ (@is_recent_entry C e 1 w).1 = Ok true.
Proof.
  intros C e w. split; [reflexivity|].
  refine (proj1 (proj2 (proj2 (@is_recent_entry_spec C e 1 w))) _ eq_refl _).
  reflexivity.
Defined.

(** * Selection *)

Section Selection.
Context `{Collaborators}.

(** What an entry does to the loop state, by cases on its timestamp,
    its age and its key. *)
Ltac loop_step Hrun Hts :=
  rewrite select_loop_cons in Hrun;
  destruct (extract_entry_timestamp _) as [[?ts|]|?ex] eqn:Hts;
    [ destruct (Qle_bool _ _) eqn:?Hrecent;
        [ destruct (decide (_ ∈ _)) as [?Hseen|?Hfresh] | ]
    | | discriminate Hrun ].

(** The entries already selected are carried along unchanged. *)
Lemma select_loop_acc (entries new_entries : list dict) (history : gset str)
    (w : world) :
  select_loop entries new_entries history w =
    match select_loop entries [] history w with
    | (Ok (added, h'), w') => (Ok (new_entries ++ added, h'), w')
    | (Raise e, w') => (Raise e, w')
    end.
Proof.
  revert new_entries history w.
  induction entries as [|entry entries IH]; intros new_entries history w.
  - cbn. unfold ret. by rewrite app_nil_r.
  - rewrite !select_loop_cons.
    destruct (extract_entry_timestamp entry) as [[ts|]|ex]; [| by apply IH | done].
    destruct (Qle_bool _ _); [|by apply IH].
    destruct (decide _); [by apply IH|].
    rewrite (IH (new_entries ++ [entry])), (IH ([] ++ [entry])).
    destruct (select_loop entries [] _ _) as [[[added h']|e] w']; [|done].
    by rewrite <-app_assoc.
Qed.

(** A pass over [l1 ++ l2] is a pass over [l1] followed by one over
    [l2]. *)
Lemma select_loop_app (l1 l2 new_entries : list dict) (history : gset str)
    (w : world) :
  select_loop (l1 ++ l2) new_entries history w =
    match select_loop l1 new_entries history w with
    | (Ok (n1, h1), w1) => select_loop l2 n1 h1 w1
    | (Raise e, w1) => (Raise e, w1)
    end.
Proof.
  revert new_entries history w.
  induction l1 as [|entry l1 IH]; intros new_entries history w; [done|].
  rewrite <-app_comm_cons, !select_loop_cons.
  destruct (extract_entry_timestamp entry) as [[ts|]|ex]; [| by apply IH | done].
  destruct (Qle_bool _ _); [|by apply IH].
  destruct (decide _); by apply IH.
Qed.

(** The invariant of the pass: the final set is the initial one plus
    the keys of the selected entries, which are new, pairwise distinct,
    and taken from the batch in order. *)
Lemma select_loop_inv (entries : list dict) (history : gset str) (w : world)
    sel h' w' :
  select_loop entries [] history w = (Ok (sel, h'), w') →
  h' = history ∪ list_to_set (extract_entry_id <$> sel)
  ∧ (∀ e, e ∈ sel → extract_entry_id e ∉ history)
  ∧ NoDup (extract_entry_id <$> sel)
  ∧ sel `sublist_of` entries.
Proof.
  revert history w sel h' w'.
  induction entries as [|entry entries IH]; intros history w sel h' w' Hrun.
  - cbn in Hrun. unfold ret in Hrun. simplify_eq. cbn.
    repeat split; [set_solver | by intros e ?%elem_of_nil | constructor | done].
  - loop_step Hrun Hts.
    + destruct (IH _ _ _ _ _ Hrun) as (? & ? & ? & ?).
      repeat split; try done. by apply sublist_cons.
    + rewrite select_loop_acc in Hrun.
      destruct (select_loop entries [] _ _) as [[[added h1]|e] w1] eqn:Hrest;
        [|done].
      simplify_eq.
      destruct (IH _ _ _ _ _ Hrest) as (-> & Hnew & Hnodup & Hsub).
      cbn. repeat split.
      * set_solver.
      * intros e [->|He]%elem_of_cons; [done|].
        specialize (Hnew e He). set_solver.
      * constructor; [|done].
        intros (e & Hk & He)%list_elem_of_fmap.
        specialize (Hnew e He). set_solver.
      * by apply sublist_skip.
    + destruct (IH _ _ _ _ _ Hrun) as (? & ? & ? & ?).
      repeat split; try done. by apply sublist_cons.
    + destruct (IH _ _ _ _ _ Hrun) as (? & ? & ? & ?).
      repeat split; try done. by apply sublist_cons.
Qed.

Lemma select_loop_history_mono (entries new_entries : list dict)
    (history : gset str) (w : world) sel h' w' :
  select_loop entries new_entries history w = (Ok (sel, h'), w') →
  history ⊆ h'.
Proof.
  rewrite select_loop_acc.
  destruct (select_loop entries [] _ _) as [[[added h1]|e] w1] eqn:Hrest; [|done].
  intros ?; simplify_eq.
  destruct (select_loop_inv _ _ _ _ _ _ Hrest) as (-> & _). set_solver.
Qed.

(** A pass whose seen-set already holds everything an earlier pass over
    the same batch ended with, and whose clock readings are not earlier
    than that pass's, selects nothing and leaves the set as it is. *)
Lemma select_loop_second_pass (entries : list dict) :
  ∀ new1 h1 w1 sel1 h1' w1' new2 h2 w2,
    select_loop entries new1 h1 w1 = (Ok (sel1, h1'), w1') →
    h1' ⊆ h2 →
    (∀ k, (time_time (clock_calls w1 + k) <= time_time (clock_calls w2 + k))%Q) →
    ∃ w2', select_loop entries new2 h2 w2 = (Ok (new2, h2), w2').
Proof.
  induction entries as [|entry entries IH];
    intros new1 h1 w1 sel1 h1' w1' new2 h2 w2 Hrun Hsub Hclock.
  - by exists w2.
  - assert (∀ k, (time_time (clock_calls (tick w1) + k)
                  <= time_time (clock_calls (tick w2) + k))%Q) as Hclock'.
    { intros k. cbn. rewrite <-!Nat.add_succ_r. apply Hclock. }
    assert (time_time (clock_calls w1) <= time_time (clock_calls w2))%Q as Hnow.
    { specialize (Hclock 0%nat). by rewrite !Nat.add_0_r in Hclock. }
    rewrite select_loop_cons.
    loop_step Hrun Hts; try (destruct (Qle_bool (time_time (clock_calls w2) - _) _) eqn:Hrecent2).
    all: try (by eapply IH).
    + (* seen in the first pass *)
      pose proof (select_loop_history_mono _ _ _ _ _ _ _ Hrun) as Hmono.
      rewrite decide_True by set_solver. by eapply IH.
    + (* selected in the first pass *)
      pose proof (select_loop_history_mono _ _ _ _ _ _ _ Hrun) as Hmono.
      rewrite decide_True by set_solver. by eapply IH.
    + (* too old for the first pass: too old for the second *)
      apply Qle_bool_iff in Hrecent2.
      assert (Qle_bool (time_time (clock_calls w1) - ts)
                       (inject_Z (MAX_FETCH_DAYS * 24 * 60 * 60)) = true) as Hc
        by (apply Qle_bool_iff; lra).
      congruence.
Qed.

(** The pass completes on every batch whose entries have a timestamp
    that can be extracted, or none: it raises only where
    [extract_entry_timestamp] does. *)
Lemma select_loop_total (entries new_entries : list dict) (history : gset str)
    (w : world) :
  Forall (λ e, ∃ ts, extract_entry_timestamp e = Ok ts) entries →
  ∃ sel h' w', select_loop entries new_entries history w = (Ok (sel, h'), w').
Proof.
  intros Hall. revert new_entries history w.
  induction Hall as [|entry entries [ts Hts] _ IH]; intros new_entries history w.
  - by eexists _, _, _.
  - rewrite select_loop_cons, Hts. destruct ts as [ts|]; [|apply IH].
    destruct (Qle_bool _ _); [destruct (decide _)|]; apply IH.
Qed.

(** C5. The seen-set a pass returns is the input set together with the
    keys of exactly the selected entries; nothing is removed from it,
    and it is the input set itself when nothing was selected. *)
Theorem select_history_augmented (entries : list dict) (history : gset str)
    (w : world) sel h' w' :
  select_loop entries [] history w = (Ok (sel, h'), w') →
  h' = history ∪ list_to_set (extract_entry_id <$> sel)
  ∧ history ⊆ h'
  ∧ (sel = [] → h' = history).
Proof.
  intros Hrun.
  destruct (select_loop_inv _ _ _ _ _ _ Hrun) as (-> & _).
  split; [done|]. split; [set_solver|]. intros ->. cbn. set_solver.
Qed.

(** C1. A second pass over the same batch, started from the seen-set
    the first pass returned, selects no entry (and returns that set
    unchanged). *)
Theorem select_idempotent (entries : list dict) (history : gset str)
    (w : world) sel h' w' :
  select_loop entries [] history w = (Ok (sel, h'), w') →
  ∃ w2, select_loop entries [] h' w = (Ok ([], h'), w2).
Proof.
  intros Hrun.
  eapply (select_loop_second_pass entries); [exact Hrun | done |].
  intros k. apply Qle_refl.
Qed.

(** The same for a later pass: any world whose clock readings are not
    earlier than those of the first pass, call for call. *)
Corollary select_idempotent_later (entries : list dict) (history : gset str)
    (w w_later : world) sel h' w' :
  select_loop entries [] history w = (Ok (sel, h'), w') →
  (∀ k, (time_time (clock_calls w + k)
         <= time_time (clock_calls w_later + k))%Q) →
  ∃ w2, select_loop entries [] h' w_later = (Ok ([], h'), w2).
Proof.
  intros Hrun Hclock.
  by eapply (select_loop_second_pass entries).
Qed.

Lemma filter_none {A} (P : A → Prop) `{∀ x, Decision (P x)} (l : list A) :
  (∀ x, x ∈ l → ¬ P x) → filter P l = [].
Proof.
  induction l as [|x l IH]; intros Hl; [done|].
  rewrite filter_cons_False by (apply Hl; by left).
  apply IH. intros y Hy. apply Hl. by right.
Qed.

(** The world a pass ends in does not depend on its accumulators. *)
Lemma select_loop_world (entries : list dict) :
  ∀ new1 h1 new2 h2 w,
    (select_loop entries new1 h1 w).2 = (select_loop entries new2 h2 w).2.
Proof.
  induction entries as [|entry entries IH]; intros new1 h1 new2 h2 w; [done|].
  rewrite !select_loop_cons.
  destruct (extract_entry_timestamp entry) as [[ts|]|ex]; [|by apply IH|done].
  destruct (Qle_bool _ _); [|by apply IH].
  destruct (decide (_ ∈ h1)), (decide (_ ∈ h2)); by apply IH.
Qed.

Lemma recent_at_turn_cons_timestamped (e : dict) (ts : Q) (before : list dict)
    (x : dict) (w : world) :
  extract_entry_timestamp e = Ok (Some ts) →
  recent_at_turn (e :: before) x w ↔ recent_at_turn before x (tick w).
Proof.
  intros Hts. unfold recent_at_turn. rewrite select_loop_cons, Hts.
  destruct (Qle_bool _ _); [destruct (decide _)|]; try done.
  by rewrite (select_loop_world before _ _ [] ∅).
Qed.

Lemma recent_at_turn_cons_undated (e : dict) (before : list dict)
    (x : dict) (w : world) :
  extract_entry_timestamp e = Ok None →
  recent_at_turn (e :: before) x w ↔ recent_at_turn before x w.
Proof.
  intros Hts. unfold recent_at_turn. by rewrite select_loop_cons, Hts.
Qed.

(** No entry is selected whose key is [k], when each entry of the
    batch with key [k] is not recent as its turn comes. *)
Lemma select_loop_skips_key (l1 : list dict) (k : str) :
  ∀ history w s1 h1 w1,
    select_loop l1 [] history w = (Ok (s1, h1), w1) →
    (∀ a x b, l1 = a ++ x :: b → extract_entry_id x = k →
              ¬ recent_at_turn a x w) →
    ∀ x, x ∈ s1 → extract_entry_id x ≠ k.
Proof.
  induction l1 as [|e l1 IH]; intros history w s1 h1 w1 Hrun Hturn x Hx.
  - cbn in Hrun. unfold ret in Hrun. simplify_eq. by apply elem_of_nil in Hx.
  - pose proof (Hturn [] e l1 eq_refl) as Hhead.
    loop_step Hrun Hts.
    + eapply (IH _ _ _ _ _ Hrun); [|done].
      intros a y b -> Hy. rewrite <-recent_at_turn_cons_timestamped by done.
      by apply (Hturn (e :: a) y b).
    + rewrite select_loop_acc in Hrun.
      destruct (select_loop l1 [] _ _) as [[[added h2]|ex] w2] eqn:Hrest; [|done].
      simplify_eq. apply elem_of_cons in Hx as [->|Hx].
      * intros Hk. apply (Hhead Hk). unfold recent_at_turn.
        cbn [select_loop ret snd]. rewrite is_recent_entry_run, Hts. cbn.
        f_equal. exact Hrecent.
      * eapply (IH _ _ _ _ _ Hrest); [|done].
        intros a y b -> Hy. rewrite <-recent_at_turn_cons_timestamped by done.
        by apply (Hturn (e :: a) y b).
    + eapply (IH _ _ _ _ _ Hrun); [|done].
      intros a y b -> Hy. rewrite <-recent_at_turn_cons_timestamped by done.
      by apply (Hturn (e :: a) y b).
    + eapply (IH _ _ _ _ _ Hrun); [|done].
      intros a y b -> Hy. rewrite <-recent_at_turn_cons_undated by done.
      by apply (Hturn (e :: a) y b).
Qed.

(** An entry that is recent when its turn comes, whose key is not in
    the input seen-set, and before which no entry with the same key is
    recent at its own turn, is the one and only selected entry with
    that key. *)
Lemma select_first_occurrence (l1 : list dict) (e : dict) (l2 : list dict)
    (history : gset str) (w : world) sel h' w' :
  select_loop (l1 ++ e :: l2) [] history w = (Ok (sel, h'), w') →
  extract_entry_id e ∉ history →
  (∀ a x b, l1 = a ++ x :: b → extract_entry_id x = extract_entry_id e →
            ¬ recent_at_turn a x w) →
  recent_at_turn l1 e w →
  filter (λ x, extract_entry_id x = extract_entry_id e) sel = [e].
Proof.
  intros Hrun Hfresh Hfirst Hrecent.
  rewrite select_loop_app in Hrun.
  destruct (select_loop l1 [] history w) as [[[s1 h1]|ex] w1] eqn:Hpre; [|done].
  unfold recent_at_turn in Hrecent.
  rewrite (select_loop_world l1 _ _ [] history), Hpre in Hrecent.
  cbn [snd] in Hrecent.
  pose proof (select_loop_skips_key _ _ _ _ _ _ _ Hpre Hfirst) as Hs1.
  destruct (select_loop_inv _ _ _ _ _ _ Hpre) as (-> & _).
  rewrite is_recent_entry_run in Hrecent.
  rewrite select_loop_cons in Hrun.
  destruct (extract_entry_timestamp e) as [[ts|]|ex]; [|done..].
  cbn in Hrecent. injection Hrecent as Hrecent.
  change (1 * 24 * 60 * 60) with (MAX_FETCH_DAYS * 24 * 60 * 60) in Hrecent.
  rewrite Hrecent in Hrun.
  rewrite decide_False in Hrun.
  2:{ rewrite elem_of_union, elem_of_list_to_set, list_elem_of_fmap.
      intros [?|(x & Hk & Hx)]; [done|]. by apply (Hs1 x). }
  rewrite select_loop_acc in Hrun.
  destruct (select_loop l2 [] _ _) as [[[added h2]|ex] w2] eqn:Hpost; [|done].
  simplify_eq.
  destruct (select_loop_inv _ _ _ _ _ _ Hpost) as (_ & Hnew & _).
  rewrite !filter_app, (filter_none _ s1) by done.
  rewrite (filter_none _ added).
  2:{ intros x Hx Hk. apply (Hnew x Hx). rewrite Hk. set_solver. }
  by rewrite filter_cons_True, filter_nil by done.
Qed.

(** C2. When two entries of a batch have the same identity key, the
    key is not in the input seen-set, and the earlier one is recent
    when its turn comes and is the first such entry of the batch (no
    entry before it has that key and is recent at its own turn), then
    exactly one selected entry has that key, and it is the earlier one,
    whether or not the later one is recent.  Two entries without id and
    guid that agree on link and title have the same key; two such
    entries with the same link and different title texts have different
    keys. *)
Theorem select_within_batch_dedup :
  (∀ (l1 : list dict) (e1 : dict) (l2 : list dict) (e2 : dict) (l3 : list dict)
     (history : gset str) (w : world) sel h' w',
     select_loop (l1 ++ e1 :: l2 ++ e2 :: l3) [] history w = (Ok (sel, h'), w') →
     extract_entry_id e2 = extract_entry_id e1 →
     extract_entry_id e1 ∉ history →
     (∀ a x b, l1 = a ++ x :: b → extract_entry_id x = extract_entry_id e1 →
               ¬ recent_at_turn a x w) →
     recent_at_turn l1 e1 w →
     filter (λ x, extract_entry_id x = extract_entry_id e1) sel = [e1])
  ∧ (∀ e1 e2 : dict,
       absent_or_falsy e1 (u "id") → absent_or_falsy e1 (u "guid") →
       absent_or_falsy e2 (u "id") → absent_or_falsy e2 (u "guid") →
       e1 !! u "link" = e2 !! u "link" →
       e1 !! u "title" = e2 !! u "title" →
       extract_entry_id e1 = extract_entry_id e2)
  ∧ (∀ e1 e2 : dict,
       absent_or_falsy e1 (u "id") → absent_or_falsy e1 (u "guid") →
       absent_or_falsy e2 (u "id") → absent_or_falsy e2 (u "guid") →
       e1 !! u "link" = e2 !! u "link" →
       field_text e1 (u "title") ≠ field_text e2 (u "title") →
       extract_entry_id e1 ≠ extract_entry_id e2).
Proof.
  split; [|split].
  - intros l1 e1 l2 e2 l3 history w sel h' w' Hrun _ Hfresh Hfirst Hrecent.
    by eapply select_first_occurrence.
  - unfold absent_or_falsy. intros e1 e2 Hi1 Hg1 Hi2 Hg2 Hlink Htitle.
    rewrite !extract_entry_id_unfold, Hi1, Hg1, Hi2, Hg2.
    unfold field_text, dict_get_default. by rewrite Hlink, Htitle.
  - unfold absent_or_falsy. intros e1 e2 Hi1 Hg1 Hi2 Hg2 Hlink Htitle.
    rewrite !extract_entry_id_unfold, Hi1, Hg1, Hi2, Hg2.
    unfold field_text at 1 3. unfold dict_get_default. rewrite Hlink.
    intros Heq. apply app_inv_head in Heq. by apply app_inv_head in Heq.
Qed.

End Selection.

Lemma select_idempotent_witness :
  let C := sample_collaborators 1000000 [] in
  @select_loop C [entry_t1; entry_t2] [] ∅ world0
    = (Ok ([entry_t1], {[u "http://x/1::T"]}), tick (tick world0))
  ∧ ∃ w2, @select_loop C [entry_t1; entry_t2] [] {[u "http://x/1::T"]} world0
          = (Ok ([], {[u "http://x/1::T"]}), w2).
Proof.
  intros C.
  assert (@select_loop C [entry_t1; entry_t2] [] ∅ world0
    = (Ok ([entry_t1], {[u "http://x/1::T"]}), tick (tick world0))) as Hrun
    by (vm_compute; reflexivity).
  split; [exact Hrun|].
  exact (@select_idempotent C _ _ _ _ _ _ Hrun).
Defined.

Lemma select_history_augmented_witness :
  let C := sample_collaborators 1000000 [] in
  ({[u "http://x/1::T"]} : gset str)
    = ∅ ∪ list_to_set (extract_entry_id <$> [entry_t1]).
Proof.
  intros C.
  refine (proj1 (@select_history_augmented C [entry_t1; entry_t2] ∅ world0
                   [entry_t1] {[u "http://x/1::T"]} (tick (tick world0)) _)).
  vm_compute; reflexivity.
Defined.

Lemma select_within_batch_dedup_witness :
  let C := sample_collaborators 1000000 [] in
  filter (λ x, extract_entry_id x = extract_entry_id entry_t1) [entry_t1]
    = [entry_t1].
Proof.
  intros C.
  refine (proj1 (@select_within_batch_dedup C) [] entry_t1 [] entry_t2 []
            ∅ world0 [entry_t1] {[u "http://x/1::T"]} (tick (tick world0))
            _ _ _ _ _).
  - vm_compute; reflexivity.
  - reflexivity.
  - set_solver.
  - intros a x b Heq. by destruct a.
  - reflexivity.
Defined.

(** * Formatter *)

Section Formatter.

Lemma html_escape_char_nonempty (c : N) : html_escape_char c ≠ [].
Proof. unfold html_escape_char. by repeat case_match. Qed.

Lemma html_escape_nil (s : str) : html_escape s = [] ↔ s = [].
Proof.
  split; [|by intros ->].
  destruct s as [|c s]; [done|]. unfold html_escape. cbn.
  intros [Hc _]%app_eq_nil. by apply html_escape_char_nonempty in Hc.
Qed.

Lemma html_escape_app (a b : str) :
  html_escape (a ++ b) = html_escape a ++ html_escape b.
Proof. apply bind_app. Qed.

Lemma shorten_text_long (text : str) :
  (200 < length text)%nat →
  shorten_text text 200 = take 197 text ++ u "..."
  ∧ length (shorten_text text 200) = 200%nat.
Proof.
  intros Hlen. unfold shorten_text.
  destruct (Z.leb_spec (Z.of_nat (length text)) 200) as [?|_]; [lia|].
  change (slice_to text (200 - 3)) with (take 197 text).
  split; [done|]. rewrite length_app, length_take.
  change (length (u "...")) with 3%nat. lia.
Qed.

Lemma shorten_text_short (text : str) :
  (length text ≤ 200)%nat → shorten_text text 200 = text.
Proof.
  intros Hlen. unfold shorten_text.
  destruct (Z.leb_spec (Z.of_nat (length text)) 200) as [_|?]; [done|lia].
Qed.

Lemma dict_get_default_text (entry : dict) (k dflt : str) :
  text_field entry k →
  dict_get_default entry k (VStr dflt) = VStr (field_or entry k dflt).
Proof.
  unfold text_field, dict_get_default, field_or. intros Htext.
  destruct (entry !! k) as [v|]; [|done].
  by destruct (Htext v eq_refl) as [s ->].
Qed.

(** C9 (as amended). For an entry whose title, source, body and link
    are text where present, [build_message] returns a message (it has
    no failing path there), with the placeholders standing in for a
    missing title and a missing source.  The message is the title line;
    then, when the body is not empty, a blank line and the body line;
    then, when the link is not empty, the link line.  The body is
    measured after its newlines were replaced by spaces and its
    surrounding white space stripped: when that text is longer than 200
    characters the body rendered is its first 197 characters followed
    by the marker of three dots, and the rendered body ends with the
    marker; otherwise the body is that text itself. *)
Theorem build_message_spec (entry : dict) :
  text_entry entry →
  let title := html_escape (field_or entry (u "title") NO_TITLE) in
  let source := html_escape (field_or entry (u "source_title") UNKNOWN_SOURCE) in
  let body := shorten_text (normalized_body entry) 200 in
  let link := html_escape (field_or entry (u "link") []) in
  build_message entry
    = Ok ((u "[" ++ source ++ utf8 "] 📰 <b>" ++ title ++ u "</b>")
          ++ (if bool_decide (body = []) then []
              else [NEWLINE; NEWLINE] ++ utf8 "📝 " ++ html_escape body)
          ++ (if bool_decide (link = []) then []
              else [NEWLINE] ++ utf8 "🔗 " ++ link))
  ∧ ((200 < length (normalized_body entry))%nat →
       body = take 197 (normalized_body entry) ++ u "..."
       ∧ html_escape body
         = html_escape (take 197 (normalized_body entry)) ++ u "...")
  ∧ ((length (normalized_body entry) ≤ 200)%nat →
       body = normalized_body entry).
Proof.
  intros (Htitle & Hsource & Hsummary & Hdescription & Hlink).
  intros title source body link. split; [|split].
  - unfold build_message.
    rewrite !dict_get_default_text by done. cbn [escape_html].
    assert (py_or (VStr (field_or entry (u "summary") []))
                  (VStr (field_or entry (u "description") []))
            = VStr (entry_body entry)) as ->.
    { unfold py_or, entry_body. cbn [truthy]. by case_bool_decide. }
    cbn [normalize_summary].
    fold (normalized_body entry). fold body. fold title source link.
    f_equal.
    assert (bool_decide (html_escape body = []) = bool_decide (body = [])) as ->.
    { apply bool_decide_ext, html_escape_nil. }
    destruct (bool_decide (body = [])), (bool_decide (link = [])); cbn;
      rewrite <-?app_assoc; cbn; try done.
    by rewrite app_nil_r.
  - intros Hlong. destruct (shorten_text_long _ Hlong) as [Hbody _].
    split; [done|]. unfold body. by rewrite Hbody, html_escape_app.
  - apply shorten_text_short.
Qed.

(** C9 as stated fails: a summary of 201 characters, longer than the
    bound, that ends in a space is rendered without the marker. *)
Lemma build_message_padded_body_not_marked :
  entry_padded !! u "summary" = Some (VStr (replicate 200 97%N ++ [SPACE]))
  ∧ (200 < length (replicate 200 97%N ++ [SPACE]))%nat
  ∧ build_message entry_padded
      = Ok (utf8 "[未知来源] 📰 <b>(无标题)</b>"
            ++ [NEWLINE; NEWLINE] ++ utf8 "📝 " ++ replicate 200 97%N)
  ∧ ¬ (u "..." `suffix_of`
         utf8 "[未知来源] 📰 <b>(无标题)</b>"
         ++ [NEWLINE; NEWLINE] ++ utf8 "📝 " ++ replicate 200 97%N).
Proof.
  split; [reflexivity|]. split; [cbn; lia|].
  split; [vm_compute; reflexivity|].
  intros [prefix Heq].
  apply (f_equal reverse) in Heq. rewrite !reverse_app in Heq.
  vm_compute in Heq. discriminate.
Qed.

End Formatter.

Lemma build_message_spec_witness :
  let e : dict := <[u "summary" := VStr (replicate 250 97%N)]> ∅ in
  text_entry e
  ∧ shorten_text (normalized_body e) 200 = replicate 197 97%N ++ u "...".
Proof.
  intros e.
  assert (text_entry e) as Htext.
  { repeat split; intros v Hv; vm_compute in Hv; simplify_eq; by eexists. }
  split; [exact Htext|].
  refine (proj1 (proj1 (proj2 (build_message_spec e Htext)) _)).
  vm_compute. lia.
Defined.

(** * The seen-set store *)

Section Store.

(** ** The order of [sorted] *)

Local Instance str_le_refl : Reflexive str_le.
Proof.
  intros a. unfold str_le. induction a as [|x a IH]; [done|]. cbn.
  by rewrite N.ltb_irrefl, N.eqb_refl.
Qed.

Local Instance str_le_trans : Transitive str_le.
Proof.
  unfold str_le. intros a. induction a as [|x a IH]; intros b c; [done|].
  destruct b as [|y b]; [done|]. destruct c as [|z c]; [done|]. cbn.
  destruct (N.ltb_spec x y), (N.ltb_spec y z), (N.ltb_spec x z);
    try done; try lia.
  - destruct (N.eqb_spec y z); [lia|done].
  - destruct (N.eqb_spec x y); [lia|done].
  - destruct (N.eqb_spec x y), (N.eqb_spec y z), (N.eqb_spec x z);
      try done; try lia. apply IH.
Qed.

Local Instance str_le_antisymm : AntiSymm (=) str_le.
Proof.
  unfold str_le. intros a. induction a as [|x a IH]; intros b.
  - by destruct b.
  - destruct b as [|y b]; [done|]. cbn.
    destruct (N.ltb_spec x y), (N.ltb_spec y x); try lia; try done.
    + destruct (N.eqb_spec y x); [lia|done].
    + destruct (N.eqb_spec x y); [lia|done].
    + destruct (N.eqb_spec x y), (N.eqb_spec y x); try done; try lia.
      intros Hab Hba. subst. f_equal. by apply IH.
Qed.

Local Instance str_le_total : Total str_le.
Proof.
  unfold str_le. intros a. induction a as [|x a IH]; intros b; [by left|].
  destruct b as [|y b]; [by right|]. cbn.
  destruct (N.ltb_spec x y), (N.ltb_spec y x); try lia; auto.
  destruct (N.eqb_spec x y), (N.eqb_spec y x); try lia. apply IH.
Qed.

Lemma sorted_Sorted (l : list str) : Sorted str_le (sorted l).
Proof. apply Sorted_merge_sort, _. Qed.

Lemma sorted_Permutation (l : list str) : sorted l ≡ₚ l.
Proof. apply merge_sort_Permutation. Qed.

(** [sorted] depends on the elements only, not on the order they are
    handed over in. *)
Lemma sorted_unique (l1 l2 : list str) : l1 ≡ₚ l2 → sorted l1 = sorted l2.
Proof.
  intros Hperm. apply (Sorted_unique str_le); try apply sorted_Sorted.
  by rewrite !sorted_Permutation.
Qed.

(** ** Reading back what [json_dump] wrote *)

Lemma hex4_hex_digit (c : N) :
  (c < 32)%N → hex4 48 48 (hex_digit (c / 16)) (hex_digit (c mod 16)) = Some c.
Proof.
  intros Hc. rewrite <-(N2Nat.id c).
  assert (N.to_nat c < 32)%nat as Hn by lia.
  revert Hn. generalize (N.to_nat c). intros n Hn.
  do 32 (destruct n as [|n]; [vm_compute; reflexivity|]). lia.
Qed.

(** A [\\u] escape whose code is no high surrogate stands for that one
    character, whatever follows. *)
Lemma json_scan_escape_u (items : list str) (acc : str) (c : N) (rest : str) :
  (c < 32)%N →
  json_scan JString items acc
    ([92; 117; 48; 48; hex_digit (c / 16); hex_digit (c mod 16)]%N ++ rest)
  = json_scan JString items (acc ++ [c]) rest.
Proof.
  intros Hc. cbn -[hex4 N.div N.modulo].
  rewrite hex4_hex_digit by done.
  assert (is_high_surrogate c = false) as Hhi.
  { unfold is_high_surrogate. apply andb_false_intro1.
    apply N.leb_gt. lia. }
  rewrite Hhi.
  by destruct rest as [|? [|? [|? [|? [|? [|? ?]]]]]].
Qed.

Lemma json_scan_string_char (items : list str) (acc : str) (c : N) (rest : str) :
  json_scan JString items acc (json_escape_char c ++ rest)
  = json_scan JString items (acc ++ [c]) rest.
Proof.
  unfold json_escape_char.
  destruct (N.eqb_spec c 34) as [->|?]; [done|].
  destruct (N.eqb_spec c 92) as [->|?]; [done|].
  destruct (N.eqb_spec c 10) as [->|?]; [done|].
  destruct (N.eqb_spec c 13) as [->|?]; [done|].
  destruct (N.eqb_spec c 9) as [->|?]; [done|].
  destruct (N.eqb_spec c 8) as [->|?]; [done|].
  destruct (N.eqb_spec c 12) as [->|?]; [done|].
  destruct (N.ltb_spec c 32) as [Hc|Hc]; [by apply json_scan_escape_u|].
  cbn [app json_scan].
  destruct (N.eqb_spec c 34); [done|].
  destruct (N.eqb_spec c 92); [done|].
  destruct (N.ltb_spec c 32); [lia|done].
Qed.

Lemma json_scan_string (items : list str) (s acc rest : str) :
  json_scan JString items acc ((s ≫= json_escape_char) ++ rest)
  = json_scan JString items (acc ++ s) rest.
Proof.
  revert acc. induction s as [|c s IH]; intros acc.
  - by rewrite app_nil_r.
  - cbn [mbind list_bind]. rewrite <-app_assoc, json_scan_string_char, IH.
    by rewrite <-app_assoc.
Qed.

(** From the opening quote of an item to just after its closing one. *)
Lemma json_scan_item (items : list str) (s rest : str) :
  json_scan JString items [] (tail (json_dump_str s) ++ rest)
  = json_scan JAfterItem (items ++ [s]) [] rest.
Proof.
  unfold json_dump_str. cbn [app tail]. rewrite <-app_assoc.
  by rewrite json_scan_string.
Qed.

Lemma json_scan_tail (xs items : list str) :
  json_scan JAfterItem items [] (json_tail xs) = Some (items ++ xs).
Proof.
  revert items. induction xs as [|x xs IH]; intros items.
  - by rewrite app_nil_r.
  - cbn [json_tail].
    change (json_scan JAfterItem items []
              (u "," ++ [NEWLINE] ++ u "  " ++ json_dump_str x ++ json_tail xs))
      with (json_scan JString items [] (tail (json_dump_str x) ++ json_tail xs)).
    by rewrite json_scan_item, IH, <-app_assoc.
Qed.

Lemma py_join_cons (sep a b : str) (l : list str) :
  py_join sep (a :: b :: l) = a ++ sep ++ py_join sep (b :: l).
Proof. reflexivity. Qed.

Lemma py_join_json_tail (x : str) (xs : list str) :
  py_join (u "," ++ [NEWLINE] ++ u "  ") (json_dump_str <$> x :: xs)
    ++ [NEWLINE] ++ u "]"
  = json_dump_str x ++ json_tail xs.
Proof.
  revert x. induction xs as [|y xs IH]; intros x; [done|].
  rewrite fmap_cons, fmap_cons, py_join_cons, <-fmap_cons.
  rewrite <-!app_assoc, IH. reflexivity.
Qed.

Lemma json_dump_cons (x : str) (xs : list str) :
  json_dump (x :: xs)
  = u "[" ++ [NEWLINE] ++ u "  " ++ json_dump_str x ++ json_tail xs.
Proof.
  unfold json_dump. by rewrite <-py_join_json_tail.
Qed.

(** [json.load] of what [json.dump] wrote is the list written. *)
Lemma json_load_dump (items : list str) : json_load (json_dump items) = Some items.
Proof.
  destruct items as [|x xs]; [done|].
  rewrite json_dump_cons. unfold json_load.
  change (json_scan JStart [] []
            (u "[" ++ [NEWLINE] ++ u "  " ++ json_dump_str x ++ json_tail xs))
    with (json_scan JString [] [] (tail (json_dump_str x) ++ json_tail xs)).
  by rewrite json_scan_item, json_scan_tail.
Qed.

(** ** The store in the world *)

Lemma save_history_run (l : list str) (w : world) :
  save_history l w
  = (Ok tt, World (env_token w) (config_file w)
                  (Some (json_dump (sorted l))) (clock_calls w)
                  (trace w ++ [EvSaveHistory (json_dump (sorted l))])).
Proof. reflexivity. Qed.

(** Two iteration orders of one set are sorted into the same list. *)
Lemma sorted_enumeration (history : gset str) (l : list str) :
  NoDup l → (∀ x, x ∈ l ↔ x ∈ history) → sorted l = sorted (elements history).
Proof.
  intros Hnodup Hl. apply sorted_unique, NoDup_Permutation;
    [done | apply NoDup_elements |].
  intros x. by rewrite Hl, elem_of_elements.
Qed.

Lemma list_to_set_sorted (history : gset str) (l : list str) :
  (∀ x, x ∈ l ↔ x ∈ history) → list_to_set (sorted l) = history.
Proof.
  intros Hl. apply set_eq. intros x.
  by rewrite elem_of_list_to_set, sorted_Permutation.
Qed.

(** C7. Let a set be saved, handed over in any iteration order.  The
    text written lists the keys in sorted order and is the same for
    every iteration order and every world, so two saves of equal sets
    write identical text; loading it back yields the set; and saving
    what was loaded writes the very same text again. *)
Theorem history_store_round_trip (history : gset str) (l : list str) (w : world) :
  NoDup l → (∀ x, x ∈ l ↔ x ∈ history) →
  let w1 := (save_history l w).2 in
  (∃ keys, history_file w1 = Some (json_dump keys)
           ∧ Sorted str_le keys ∧ keys ≡ₚ l)
  ∧ (∀ l' w', NoDup l' → (∀ x, x ∈ l' ↔ x ∈ history) →
       history_file (save_history l' w').2 = history_file w1)
  ∧ load_history w1 = (Ok history, w1)
  ∧ (∃ w2, (let* loaded := load_history in
            save_history (elements loaded)) w1 = (Ok tt, w2)
           ∧ history_file w2 = history_file w1).
Proof.
  intros Hnodup Hl w1. subst w1. rewrite save_history_run. cbn [snd].
  split; [|split; [|split]].
  - exists (sorted l). cbn.
    split; [done|]. split; [apply sorted_Sorted | apply sorted_Permutation].
  - intros l' w' Hnodup' Hl'. rewrite save_history_run. cbn.
    by rewrite (sorted_enumeration history l), (sorted_enumeration history l').
  - unfold load_history. cbn. rewrite json_load_dump. unfold ret.
    by rewrite (list_to_set_sorted history).
  - eexists. unfold bind, load_history. cbn [history_file].
    rewrite json_load_dump. unfold ret.
    rewrite (list_to_set_sorted history) by done. rewrite save_history_run.
    split; [reflexivity|]. cbn.
    by rewrite (sorted_enumeration history l).
Qed.

End Store.

Lemma history_store_round_trip_witness :
  let l := [u "b"; u "a"] in
  NoDup l
  ∧ load_history (save_history l world0).2
    = (Ok {[u "a"; u "b"]}, (save_history l world0).2).
Proof.
  intros l.
  assert (NoDup l) as Hnodup
    by (apply (bool_decide_unpack (NoDup l)); vm_compute; exact I).
  split; [exact Hnodup|].
  refine (proj1 (proj2 (proj2
    (history_store_round_trip {[u "a"; u "b"]} l world0 Hnodup _)))).
  intros x. unfold l. set_solver.
Defined.

(** * The run *)

Section Run.
Context `{Collaborators}.

(** ** What each step does to the world *)

Lemma bootstrap_spec (w : world) :
  env_token (bootstrap w) = env_token w
  ∧ clock_calls (bootstrap w) = clock_calls w
  ∧ config_file (bootstrap w) = Some (default default_content (config_file w))
  ∧ history_file (bootstrap w) = Some (default (json_dump []) (history_file w))
  ∧ ∃ created, trace (bootstrap w) = trace w ++ created ∧ Forall quiet created.
Proof.
  unfold bootstrap, ensure_config_exists, ensure_history_exists, bind,
    write_config, write_history, emit, ret.
  destruct w as [tok [cfg|] [hist|] n tr]; cbn; repeat split.
  all: first
    [ exists []; split; [by rewrite app_nil_r | constructor]
    | eexists [_]; split; [reflexivity | by repeat constructor]
    | eexists [_; _]; split; [by rewrite <-app_assoc | by repeat constructor] ].
Qed.

Lemma fetch_loop_run (urls : list str) (entries : list dict) (w : world) :
  ∃ fetched events,
    fetch_loop urls entries w
    = (Ok fetched, World (env_token w) (config_file w) (history_file w)
                         (clock_calls w) (trace w ++ events))
    ∧ Forall (λ ev, is_send ev = false ∧ is_save ev = false) events.
Proof.
  revert entries w. induction urls as [|url urls IH]; intros entries w.
  - exists entries, []. rewrite app_nil_r. by destruct w.
  - cbn [fetch_loop]. unfold bind, emit. cbn.
    edestruct IH as (fetched & events & -> & Hev).
    exists fetched, (EvFetch url :: EvSleep :: events). cbn.
    rewrite <-!app_assoc. split; [done|]. by repeat constructor.
Qed.

Lemma select_loop_frame (entries new_entries : list dict) (history : gset str)
    (w : world) out w' :
  select_loop entries new_entries history w = (out, w') →
  w' = World (env_token w) (config_file w) (history_file w)
             (clock_calls w') (trace w).
Proof.
  revert new_entries history w.
  induction entries as [|entry entries IH]; intros new_entries history w.
  - cbn. unfold ret. intros [= <- <-]. by destruct w.
  - rewrite select_loop_cons.
    destruct (extract_entry_timestamp entry) as [[ts|]|ex].
    + destruct (Qle_bool _ _); [destruct (decide _)|];
        intros Hrun; by rewrite (IH _ _ _ Hrun).
    + apply IH.
    + intros [= <- <-]. by destruct w.
Qed.

(** The send loop records one attempt per entry, in order, up to and
    including the first that fails; it touches nothing else. *)
Lemma send_loop_run (token : str) (sel : list dict) (w : world) :
  ∃ out sends,
    send_loop token sel w
    = (out, World (env_token w) (config_file w) (history_file w)
                  (clock_calls w) (trace w ++ sends))
    ∧ Forall (λ ev, is_send ev = true) sends
    ∧ (out = Ok tt → Forall2 (attempt_for token) sel sends).
Proof.
  revert w. induction sel as [|entry sel IH]; intros w.
  - exists (Ok tt), []. rewrite app_nil_r. destruct w. by repeat split.
  - cbn [send_loop]. unfold bind at 1, lift.
    destruct (build_message entry) as [message|ex] eqn:Hmsg.
    2:{ exists (Raise ex), []. rewrite app_nil_r. destruct w. by repeat split. }
    unfold bind at 1, send_to_telegram. unfold bind at 1, emit. cbn.
    destruct (urlopen _ _ _ _) as [status|] eqn:Hopen.
    + destruct (status =? 200) eqn:Hstatus.
      * unfold ret. edestruct IH as (out & sends & -> & Hsends & Hall).
        eexists out, (_ :: sends). cbn. rewrite <-app_assoc. cbn.
        split; [done|]. split; [by constructor|].
        intros Hok. constructor; [by eexists | by apply Hall].
      * eexists (Raise RuntimeError), [_]. cbn.
        split; [done|]. split; [by repeat constructor | done].
    + eexists (Raise URLError), [_]. cbn.
      split; [done|]. split; [by repeat constructor | done].
Qed.

(** ** The run, step by step *)

Lemma main_run (w : world) :
  main w =
    let wb := bootstrap w in
    match env_token w with
    | None | Some [] =>
        (Raise (SystemExit 1), (emit (EvPrint MSG_NO_TOKEN) wb).2)
    | Some token =>
        let urls :=
          config_urls
            (split_on NEWLINE (default default_content (config_file w))) [] in
        if bool_decide (urls = []) then emit (EvPrint MSG_NO_URLS) wb
        else
          match json_load (default (json_dump []) (history_file w)) with
          | None => (Raise JSONDecodeError, wb)
          | Some data =>
              match fetch_entries urls wb with
              | (Raise e, wf) => (Raise e, wf)
              | (Ok entries, wf) =>
                  match select_loop entries [] (list_to_set data) wf with
                  | (Raise e, ws) => (Raise e, ws)
                  | (Ok (sel, h'), ws) =>
                      if bool_decide (sel = []) then (Ok tt, ws)
                      else
                        match send_loop token sel ws with
                        | (Ok _, w3) => save_history (elements h') w3
                        | (Raise e, w3) => (Raise e, w3)
                        end
                  end
              end
          end
    end.
Proof.
  destruct (bootstrap_spec w) as (Htok & _ & Hcfg & Hhist & _).
  unfold main, bootstrap in *.
  unfold bind at 1.
  assert ((ensure_config_exists w).1 = Ok tt) as Hc
    by (unfold ensure_config_exists; by destruct (config_file w)).
  destruct (ensure_config_exists w) as [o1 w1]. cbn [fst snd] in *. subst o1.
  unfold bind at 1.
  assert ((ensure_history_exists w1).1 = Ok tt) as Hh
    by (unfold ensure_history_exists; by destruct (history_file w1)).
  destruct (ensure_history_exists w1) as [o2 wb]. cbn [fst snd] in *. subst o2.
  unfold bind at 1, getenv_token. rewrite Htok.
  destruct (env_token w) as [[|c token]|]; [done| |done].
  unfold bind at 1, load_config_urls. rewrite Hcfg. unfold ret at 1.
  cbn zeta. case_bool_decide as Hurls; [done|].
  unfold bind at 1, load_history. rewrite Hhist.
  destruct (json_load _) as [data|]; [|done]. unfold ret at 1.
  unfold bind at 1.
  destruct (fetch_entries _ wb) as [[entries|e] wf]; [|done].
  unfold bind at 1.
  destruct (select_loop _ _ _ _) as [[[sel h']|e] ws]; [|done].
  case_bool_decide; [done|].
  unfold bind at 1. by destruct (send_loop _ _ _) as [[[]|e] w3].
Qed.

Lemma load_config_urls_bootstrap (w : world) :
  load_config_urls (bootstrap w)
  = (Ok (config_urls
           (split_on NEWLINE (default default_content (config_file w))) []),
     bootstrap w).
Proof.
  destruct (bootstrap_spec w) as (_ & _ & Hcfg & _).
  unfold load_config_urls. by rewrite Hcfg.
Qed.

Lemma load_history_bootstrap (w : world) :
  load_history (bootstrap w)
  = match json_load (default (json_dump []) (history_file w)) with
    | Some data => (Ok (list_to_set data), bootstrap w)
    | None => (Raise JSONDecodeError, bootstrap w)
    end.
Proof.
  destruct (bootstrap_spec w) as (_ & _ & _ & Hhist & _).
  unfold load_history. rewrite Hhist. by destruct (json_load _).
Qed.

Lemma quiet_no_save (events : list event) :
  Forall quiet events → Forall (λ ev, is_save ev = false) events.
Proof. intros Hq. eapply Forall_impl; [exact Hq|]. by intros ev (_ & _ & ?). Qed.

Lemma quiet_no_send (events : list event) :
  Forall quiet events → Forall (λ ev, is_send ev = false) events.
Proof. intros Hq. eapply Forall_impl; [exact Hq|]. by intros ev (_ & ? & _). Qed.

Lemma sends_no_save (events : list event) :
  Forall (λ ev, is_send ev = true) events →
  Forall (λ ev, is_save ev = false) events.
Proof. intros Hs. eapply Forall_impl; [exact Hs|]. by intros []. Qed.

(** A run either never saves and leaves [data.json] as the bootstrap
    left it, or it selected at least one entry, attempted one send per
    selected entry, all of which succeeded, and then saved as its last
    effect. *)
Lemma main_outcomes (w : world) :
  (∃ events,
     trace (main w).2 = trace w ++ events
     ∧ Forall (λ ev, is_save ev = false) events
     ∧ history_file (main w).2 = history_file (bootstrap w))
  ∨ (∃ token urls history entries wf sel h' ws before sends,
       env_token w = Some token
       ∧ load_config_urls (bootstrap w) = (Ok urls, bootstrap w)
       ∧ load_history (bootstrap w) = (Ok history, bootstrap w)
       ∧ fetch_entries urls (bootstrap w) = (Ok entries, wf)
       ∧ select_loop entries [] history wf = (Ok (sel, h'), ws)
       ∧ sel ≠ []
       ∧ (main w).1 = Ok tt
       ∧ trace (main w).2
         = trace w ++ before ++ sends
           ++ [EvSaveHistory (json_dump (sorted (elements h')))]
       ∧ Forall (λ ev, is_send ev = false ∧ is_save ev = false) before
       ∧ Forall (λ ev, is_send ev = true) sends
       ∧ Forall2 (attempt_for token) sel sends
       ∧ history_file (main w).2
         = Some (json_dump (sorted (elements h')))).
Proof.
  pose proof (load_config_urls_bootstrap w) as Hload_urls.
  pose proof (load_history_bootstrap w) as Hload_hist.
  rewrite main_run. cbn zeta.
  destruct (bootstrap_spec w) as (Htok & Hclk & Hcfg & Hhist & created & Htr & Hq).
  destruct (env_token w) as [[|c token]|] eqn:Henv.
  - left. exists (created ++ [EvPrint MSG_NO_TOKEN]). cbn.
    rewrite Htr, <-app_assoc. split; [done|]. split; [|done].
    apply Forall_app. split; [by apply quiet_no_save | by repeat constructor].
  - set (urls := config_urls _ _) in *. case_bool_decide as Hurls.
    { left. exists (created ++ [EvPrint MSG_NO_URLS]). cbn.
      rewrite Htr, <-app_assoc. split; [done|]. split; [|done].
      apply Forall_app. split; [by apply quiet_no_save | by repeat constructor]. }
    destruct (json_load _) as [data|].
    2:{ left. exists created. cbn. split; [done|].
        split; [by apply quiet_no_save | done]. }
    destruct (fetch_loop_run urls [] (bootstrap w))
      as (entries & fetched & Hfetch & Hfetched).
    fold (fetch_entries urls) in Hfetch. rewrite Hfetch.
    set (wf := World _ _ _ _ _) in *.
    destruct (select_loop entries [] (list_to_set data) wf)
      as [[[sel h']|e] ws] eqn:Hsel.
    2:{ left. exists (created ++ fetched). cbn.
        rewrite (select_loop_frame _ _ _ _ _ _ Hsel). cbn.
        rewrite Htr, <-app_assoc. split; [done|]. split; [|done].
        apply Forall_app. split; [by apply quiet_no_save|].
        eapply Forall_impl; [exact Hfetched|]. by intros ev [_ ?]. }
    assert (trace ws = trace wf ∧ history_file ws = history_file wf)
      as [Htrws Hhistws]
      by (rewrite (select_loop_frame _ _ _ _ _ _ Hsel); done).
    case_bool_decide as Hnil.
    { left. exists (created ++ fetched). cbn. rewrite Htrws, Hhistws. cbn.
      rewrite Htr, <-app_assoc. split; [done|]. split; [|done].
      apply Forall_app. split; [by apply quiet_no_save|].
      eapply Forall_impl; [exact Hfetched|]. by intros ev [_ ?]. }
    destruct (send_loop_run (c :: token) sel ws)
      as (out & sends & Hsend & Hsends & Hall).
    rewrite Hsend. destruct out as [[]|e].
    + right.
      exists (c :: token), urls, (list_to_set data), entries, wf, sel, h', ws,
        (created ++ fetched), sends.
      rewrite save_history_run. cbn. rewrite Htrws. cbn.
      rewrite Htr, <-!app_assoc.
      repeat split; try done.
      * apply Forall_app. split; [|done].
        eapply Forall_impl; [exact Hq|]. by intros ev (_ & ? & ?).
      * by apply Hall.
    + left. exists (created ++ fetched ++ sends). cbn.
      rewrite Htrws, Hhistws. cbn.
      rewrite Htr, <-!app_assoc. split; [done|]. split; [|done].
      apply Forall_app. split; [by apply quiet_no_save|].
      apply Forall_app. split; [|by apply sends_no_save].
      eapply Forall_impl; [exact Hfetched|]. by intros ev [_ ?].
  - left. exists (created ++ [EvPrint MSG_NO_TOKEN]). cbn.
    rewrite Htr, <-app_assoc. split; [done|]. split; [|done].
    apply Forall_app. split; [by apply quiet_no_save | by repeat constructor].
Qed.

Lemma filter_save_none (events : list event) :
  Forall (λ ev, is_save ev = false) events →
  filter (λ ev, is_save ev = true) events = [].
Proof.
  intros Hno. apply filter_none. intros ev Hev.
  rewrite Forall_forall in Hno. rewrite (Hno ev Hev). discriminate.
Qed.

Lemma filter_send_none (events : list event) :
  Forall (λ ev, is_send ev = false) events →
  filter (λ ev, is_send ev = true) events = [].
Proof.
  intros Hno. apply filter_none. intros ev Hev.
  rewrite Forall_forall in Hno. rewrite (Hno ev Hev). discriminate.
Qed.

Lemma filter_send_all (events : list event) :
  Forall (λ ev, is_send ev = true) events →
  filter (λ ev, is_send ev = true) events = events.
Proof.
  induction 1 as [|ev events Hev _ IH]; [done|].
  by rewrite filter_cons_True, IH.
Qed.

(** A save that closes a list with no other save is the only place
    where the list splits at a save. *)
Lemma last_save_unique (base pre post : list event) (c0 c : str) :
  Forall (λ ev, is_save ev = false) base →
  base ++ [EvSaveHistory c0] = pre ++ EvSaveHistory c :: post →
  post = [] ∧ pre = base ∧ c = c0.
Proof.
  intros Hbase Heq. destruct post as [|ev post _] using rev_ind.
  - apply app_inj_tail in Heq as [-> [= ->]]. done.
  - rewrite app_comm_cons, app_assoc in Heq.
    apply app_inj_tail in Heq as [-> _].
    apply Forall_app in Hbase as [_ Hbase]. by inversion Hbase.
Qed.

(** C6. The events of a run hold at most one save of the seen-set.  A
    save is the last event of its run; the run then selected at least
    one entry, and before the save one send was attempted for every
    selected entry, in order.  A run without a save leaves [data.json]
    as it found it (or as the empty store, when the file was missing);
    a run whose selection is empty is such a run. *)
Theorem main_persists_once_after_sends (w : world) :
  ∃ events,
    trace (main w).2 = trace w ++ events
    ∧ (length (filter (λ ev, is_save ev = true) events) ≤ 1)%nat
    ∧ (∀ pre c post, events = pre ++ EvSaveHistory c :: post →
         post = []
         ∧ ∃ token urls history entries wf sel h' ws,
             env_token w = Some token
             ∧ load_config_urls (bootstrap w) = (Ok urls, bootstrap w)
             ∧ load_history (bootstrap w) = (Ok history, bootstrap w)
             ∧ fetch_entries urls (bootstrap w) = (Ok entries, wf)
             ∧ select_loop entries [] history wf = (Ok (sel, h'), ws)
             ∧ sel ≠ []
             ∧ c = json_dump (sorted (elements h'))
             ∧ Forall2 (attempt_for token) sel
                 (filter (λ ev, is_send ev = true) pre))
    ∧ ((∀ c, EvSaveHistory c ∉ events) →
         history_file (main w).2
         = Some (default (json_dump []) (history_file w)))
    ∧ (∀ token urls history entries wf h' ws,
         env_token w = Some token →
         load_config_urls (bootstrap w) = (Ok urls, bootstrap w) →
         load_history (bootstrap w) = (Ok history, bootstrap w) →
         fetch_entries urls (bootstrap w) = (Ok entries, wf) →
         select_loop entries [] history wf = (Ok ([], h'), ws) →
         ∀ c, EvSaveHistory c ∉ events).
Proof.
  destruct (bootstrap_spec w) as (_ & _ & _ & Hboot & _).
  destruct (main_outcomes w)
    as [(events & Htr & Hnosave & Hfile)
       |(token & urls & history & entries & wf & sel & h' & ws & before & sends
         & Htok & Hurls & Hhist & Hfetch & Hsel & Hsome & _ & Htr
         & Hbefore & Hsends & Hall & Hfile)].
  - assert (∀ c, EvSaveHistory c ∉ events) as Hnone.
    { intros c Hc. rewrite Forall_forall in Hnosave.
      by specialize (Hnosave _ Hc). }
    exists events. split; [done|]. split; [|split; [|split]].
    + rewrite filter_save_none by done. cbn. lia.
    + intros pre c post ->. destruct (Hnone c). set_solver.
    + intros _. by rewrite Hfile.
    + intros. apply Hnone.
  - assert (Forall (λ ev, is_save ev = false) (before ++ sends)) as Hbase.
    { apply Forall_app. split; [|by apply sends_no_save].
      eapply Forall_impl; [exact Hbefore|]. by intros ev [_ ?]. }
    exists (before ++ sends ++ [EvSaveHistory (json_dump (sorted (elements h')))]).
    split; [done|]. split; [|split; [|split]].
    + rewrite app_assoc, filter_app, filter_save_none by done.
      rewrite filter_cons_True, filter_nil by done. cbn. lia.
    + intros pre c post Heq. rewrite app_assoc in Heq.
      apply last_save_unique in Heq as (-> & -> & ->); [|done].
      split; [done|].
      exists token, urls, history, entries, wf, sel, h', ws.
      repeat split; try done.
      rewrite filter_app, filter_send_none, filter_send_all; try done.
      eapply Forall_impl; [exact Hbefore|]. by intros ev [? _].
    + intros Hnone. destruct (Hnone (json_dump (sorted (elements h')))).
      set_solver.
    + intros token0 urls0 history0 entries0 wf0 h0 ws0 Htok0 Hurls0 Hhist0
        Hfetch0 Hsel0.
      rewrite Htok in Htok0. rewrite Hurls in Hurls0. rewrite Hhist in Hhist0.
      simplify_eq. rewrite Hfetch in Hfetch0. simplify_eq.
      rewrite Hsel in Hsel0. by simplify_eq.
Qed.

(** C8. Without the credential (the variable unset or empty) the run
    exits with status 1 at once: it reads no clock, fetches nothing,
    sends nothing and saves nothing.  With the credential and an empty
    address list it exits with status 0 and is as quiet.  A run that
    goes through (the store loads, the selection pass completes and
    every send, if there is any, succeeds) exits with status 0, whether
    the selection is empty or not. *)
Theorem main_exit_status (w : world) :
  ((env_token w = None ∨ env_token w = Some []) →
     (main w).1 = Raise (SystemExit 1)
     ∧ exit_status (main w).1 = 1
     ∧ clock_calls (main w).2 = clock_calls w
     ∧ history_file (main w).2 = history_file (bootstrap w)
     ∧ ∃ events, trace (main w).2 = trace w ++ events ∧ Forall quiet events)
  ∧ (∀ token, env_token w = Some token → token ≠ [] →
       load_config_urls (bootstrap w) = (Ok [], bootstrap w) →
       (main w).1 = Ok tt
       ∧ exit_status (main w).1 = 0
       ∧ clock_calls (main w).2 = clock_calls w
       ∧ history_file (main w).2 = history_file (bootstrap w)
       ∧ ∃ events, trace (main w).2 = trace w ++ events ∧ Forall quiet events)
  ∧ (∀ token urls history entries wf sel h' ws w3,
       env_token w = Some token → token ≠ [] →
       load_config_urls (bootstrap w) = (Ok urls, bootstrap w) → urls ≠ [] →
       load_history (bootstrap w) = (Ok history, bootstrap w) →
       fetch_entries urls (bootstrap w) = (Ok entries, wf) →
       select_loop entries [] history wf = (Ok (sel, h'), ws) →
       send_loop token sel ws = (Ok tt, w3) →
       (main w).1 = Ok tt ∧ exit_status (main w).1 = 0).
Proof.
  destruct (bootstrap_spec w) as (_ & Hclk & _ & _ & created & Htr & Hq).
  pose proof (load_config_urls_bootstrap w) as Hload_urls.
  pose proof (load_history_bootstrap w) as Hload_hist.
  rewrite main_run. cbn zeta.
  split; [|split].
  - intros Hmissing.
    assert (∀ A (x y : A), match env_token w with
                           | Some [] | None => x
                           | Some (_ :: _) => y
                           end = x) as Hcase
      by (intros; by destruct Hmissing as [-> | ->]).
    destruct (env_token w) as [[|c token]|]; try (by destruct Hmissing).
    all: cbn; repeat split; try done.
    all: exists (created ++ [EvPrint MSG_NO_TOKEN]); rewrite Htr, <-app_assoc;
      split; [done|]; apply Forall_app; split; [done|]; by repeat constructor.
  - intros token Htok Hne Hurls. rewrite Hurls in Hload_urls.
    injection Hload_urls as Hnil. rewrite Htok, <-Hnil.
    destruct token as [|c token]; [done|]. cbn.
    repeat split; try done.
    exists (created ++ [EvPrint MSG_NO_URLS]). rewrite Htr, <-app_assoc.
    split; [done|]. apply Forall_app. split; [done|]. by repeat constructor.
  - intros token urls history entries wf sel h' ws w3 Htok Hne Hurls Hnonempty
      Hhist Hfetch Hsel Hsend.
    rewrite Hurls in Hload_urls. injection Hload_urls as Hurls_eq.
    rewrite Htok, <-Hurls_eq. destruct token as [|c token]; [done|].
    rewrite bool_decide_false by done.
    rewrite Hhist in Hload_hist.
    destruct (json_load _) as [data|]; [|done].
    injection Hload_hist as Hdata. rewrite <-Hdata, Hfetch, Hsel.
    case_bool_decide; [done|].
    rewrite Hsend, save_history_run. done.
Qed.

End Run.

Lemma main_persists_once_after_sends_witness :
  let C := sample_collaborators 1000000 [entry_t1; entry_t2] in
  ∃ events,
    trace (@main C world0).2 = trace world0 ++ events
    ∧ (length (filter (λ ev, is_save ev = true) events) ≤ 1)%nat.
Proof.
  intros C.
  destruct (@main_persists_once_after_sends C world0) as (events & Htr & Hone & _).
  exists events. split; [exact Htr | exact Hone].
Defined.

Lemma main_exit_status_witness :
  let C := sample_collaborators 1000000 [entry_t1; entry_t2] in
  let w_no_token := World None None None 0 [] in
  let w_no_urls := World (Some (u "TOKEN")) (Some (u "# no feeds")) None 0 [] in
  exit_status (@main C w_no_token).1 = 1
  ∧ exit_status (@main C w_no_urls).1 = 0
  ∧ exit_status (@main C world0).1 = 0.
Proof.
  intros C w_no_token w_no_urls. split; [|split].
  - refine (proj1 (proj2 (proj1 (@main_exit_status C w_no_token) _))).
    left. reflexivity.
  - refine (proj1 (proj2 (proj1 (proj2 (@main_exit_status C w_no_urls))
              (u "TOKEN") eq_refl _ _))).
    + discriminate.
    + vm_compute. reflexivity.
  - eapply (proj2 (proj2 (@main_exit_status C world0))).
    + reflexivity.
    + discriminate.
    + vm_compute. reflexivity.
    + discriminate.
    + vm_compute. reflexivity.
    + vm_compute. reflexivity.
    + vm_compute. reflexivity.
    + vm_compute. reflexivity.
Defined.

(** ** Two runs in a row

    One feed with the two entries of the sample batch, no files yet.
    The first run creates both files, fetches, sends the one message
    for the first entry and saves its key; a second run over the same
    feed, started from the files the first one left, sends nothing and
    leaves the store as it is. *)

Example scenario_first_run :
  let C := sample_collaborators 1000000 [entry_t1; entry_t2] in
  let r := @main C world0 in
  r.1 = Ok tt
  ∧ is_send <$> trace r.2 = [false; false; false; false; true; false]
  ∧ last (trace r.2) = Some (EvSaveHistory (json_dump [u "http://x/1::T"]))
  ∧ history_file r.2 = Some (json_dump [u "http://x/1::T"]).
Proof. vm_compute. repeat split. Qed.

Example scenario_second_run :
  let C := sample_collaborators 1000000 [entry_t1; entry_t2] in
  let w1 := (@main C world0).2 in
  let r := @main C (World (env_token w1) (config_file w1) (history_file w1) 0 []) in
  r.1 = Ok tt
  ∧ filter (λ ev, is_send ev = true) (trace r.2) = []
  ∧ filter (λ ev, is_save ev = true) (trace r.2) = []
  ∧ history_file r.2 = history_file w1.
Proof. vm_compute. repeat split. Qed.

(** * Further properties of the formatter *)

Section FormatterMore.

(** X1. With a bound of at least three, [shorten_text] keeps its
    promise: the result is never longer than the bound; a longer text
    becomes its first [max_length - 3] characters and three dots,
    exactly [max_length] long; and shortening a shortened text changes
    nothing. *)
Theorem shorten_text_bounded (text : str) (max_length : Z) :
  3 ≤ max_length →
  Z.of_nat (length (shorten_text text max_length)) ≤ max_length
  ∧ (max_length < Z.of_nat (length text) →
       shorten_text text max_length
       = take (Z.to_nat (max_length - 3)) text ++ u "..."
       ∧ Z.of_nat (length (shorten_text text max_length)) = max_length)
  ∧ shorten_text (shorten_text text max_length) max_length
    = shorten_text text max_length.
Proof.
  intros Hmax.
  assert (max_length < Z.of_nat (length text) →
          shorten_text text max_length
          = take (Z.to_nat (max_length - 3)) text ++ u "..."
          ∧ Z.of_nat (length (shorten_text text max_length)) = max_length)
    as Hlong.
  { intros Hlen. unfold shorten_text, slice_to.
    destruct (Z.leb_spec (Z.of_nat (length text)) max_length); [lia|].
    destruct (Z.leb_spec 0 (max_length - 3)); [|lia].
    split; [done|]. rewrite length_app, length_take.
    change (length (u "...")) with 3%nat. lia. }
  assert (Z.of_nat (length (shorten_text text max_length)) ≤ max_length) as Hle.
  { destruct (Z.le_gt_cases (Z.of_nat (length text)) max_length) as [Hs|Hl].
    - unfold shorten_text.
      by destruct (Z.leb_spec (Z.of_nat (length text)) max_length); [|lia].
    - destruct Hlong as [_ ->]; lia. }
  split; [done|]. split; [done|].
  unfold shorten_text at 1.
  by destruct (Z.leb_spec (Z.of_nat (length (shorten_text text max_length)))
                          max_length); [|lia].
Qed.

(** X2. Below three the bound is not kept: the slice [text[:max_length - 3]]
    then counts from the end, and a text longer than the bound comes
    back with three dots after all but its last [3 - max_length]
    characters, which is longer than the bound. *)
Theorem shorten_text_small_bound (text : str) (max_length : Z) :
  max_length < 3 →
  max_length < Z.of_nat (length text) →
  shorten_text text max_length
  = take (Z.to_nat (Z.of_nat (length text) + (max_length - 3))) text ++ u "..."
  ∧ Z.of_nat (length (shorten_text text max_length))
    = Z.max 0 (Z.of_nat (length text) + max_length - 3) + 3
  ∧ max_length < Z.of_nat (length (shorten_text text max_length)).
Proof.
  intros Hmax Hlen. unfold shorten_text, slice_to.
  destruct (Z.leb_spec (Z.of_nat (length text)) max_length); [lia|].
  destruct (Z.leb_spec 0 (max_length - 3)); [lia|].
  split; [done|]. rewrite length_app, length_take.
  change (length (u "...")) with 3%nat. lia.
Qed.

Lemma html_escape_char_cases (c : N) :
  (c = 38%N ∧ html_escape_char c = u "&amp;")
  ∨ (c = 60%N ∧ html_escape_char c = u "&lt;")
  ∨ (c = 62%N ∧ html_escape_char c = u "&gt;")
  ∨ (c = 34%N ∧ html_escape_char c = u "&quot;")
  ∨ (c = 39%N ∧ html_escape_char c = u "&#x27;")
  ∨ (is_special c = false ∧ html_escape_char c = [c]).
Proof.
  unfold html_escape_char, is_special, is_markup.
  destruct (N.eqb_spec c 38) as [->|?]; [by left|].
  destruct (N.eqb_spec c 60) as [->|?]; [by right; left|].
  destruct (N.eqb_spec c 62) as [->|?]; [by do 2 right; left|].
  destruct (N.eqb_spec c 34) as [->|?]; [by do 3 right; left|].
  destruct (N.eqb_spec c 39) as [->|?]; [by do 4 right; left|].
  by do 5 right.
Qed.

Lemma html_escape_cons (c : N) (s : str) :
  html_escape (c :: s) = html_escape_char c ++ html_escape s.
Proof. reflexivity. Qed.

Lemma html_escape_length (text : str) :
  (length (html_escape text) ≤ 6 * length text)%nat.
Proof.
  induction text as [|c text IH]; [cbn; lia|].
  rewrite html_escape_cons, length_app.
  destruct (html_escape_char_cases c)
    as [[_ ->]|[[_ ->]|[[_ ->]|[[_ ->]|[[_ ->]|[_ ->]]]]]]; cbn; lia.
Qed.

(** X3. What [escape_html] returns holds none of the two angle
    brackets and the two quotes; a text free of these and of the
    ampersand comes back unchanged; and the result is at least as long
    as the text and at most six times as long. *)
Theorem html_escape_safe (text : str) :
  Forall (λ c, is_markup c = false) (html_escape text)
  ∧ (Forall (λ c, is_special c = false) text → html_escape text = text)
  ∧ (length text ≤ length (html_escape text) ≤ 6 * length text)%nat.
Proof.
  induction text as [|c text (IHsafe & IHid & IHlen)].
  - split; [by apply Forall_nil|]. split; [done|]. cbn. lia.
  - rewrite html_escape_cons.
    destruct (html_escape_char_cases c)
      as [[-> ->]|[[-> ->]|[[-> ->]|[[-> ->]|[[-> ->]|[Hc ->]]]]]].
    1-5: (split; [apply Forall_app; split; [by repeat constructor | done]|]);
      (split; [by intros Hall; inversion Hall|]);
      rewrite length_app; cbn [length u]; cbn; lia.
    split; [|split].
    + constructor; [|done]. unfold is_special in Hc.
      by apply orb_false_elim in Hc as [_ ?].
    + intros Hall. inversion Hall; subst. cbn. f_equal. by apply IHid.
    + cbn. lia.
Qed.

(** X4. Escaping loses nothing: two texts with the same escaped form
    are the same text. *)
Theorem html_escape_inj (a b : str) : html_escape a = html_escape b → a = b.
Proof.
  revert b. induction a as [|c a IH]; intros b Heq.
  - destruct b as [|d b]; [done|]. symmetry in Heq.
    change (html_escape []) with (@nil N) in Heq.
    by apply (proj1 (html_escape_nil _)) in Heq.
  - destruct b as [|d b].
    { change (html_escape []) with (@nil N) in Heq.
      by apply (proj1 (html_escape_nil _)) in Heq. }
    rewrite !html_escape_cons in Heq.
    destruct (html_escape_char_cases c)
      as [[-> Hc]|[[-> Hc]|[[-> Hc]|[[-> Hc]|[[-> Hc]|[Hc1 Hc]]]]]];
    destruct (html_escape_char_cases d)
      as [[-> Hd]|[[-> Hd]|[[-> Hd]|[[-> Hd]|[[-> Hd]|[Hd1 Hd]]]]]];
    rewrite ?Hc, ?Hd in Heq; cbn in Heq; try discriminate Heq.
    all: try (injection Heq as <- _; by vm_compute in Hd1).
    all: try (injection Heq as -> _; by vm_compute in Hc1).
    all: injection Heq as Heq; subst; f_equal; by apply IH.
Qed.

End FormatterMore.

Lemma shorten_text_bounded_witness :
  shorten_text (u "abcdefgh") 5 = u "ab...".
Proof.
  refine (proj1 (proj1 (proj2 (shorten_text_bounded (u "abcdefgh") 5 _)) _)).
  - lia.
  - vm_compute. reflexivity.
Defined.

Lemma shorten_text_small_bound_witness :
  shorten_text (u "abcdef") 2 = u "abcde...".
Proof.
  refine (proj1 (shorten_text_small_bound (u "abcdef") 2 _ _)).
  - lia.
  - vm_compute. reflexivity.
Defined.

Lemma html_escape_safe_witness : html_escape (u "a b") = u "a b".
Proof.
  apply (proj1 (proj2 (html_escape_safe (u "a b")))).
  by repeat constructor.
Defined.

Lemma html_escape_inj_witness :
  html_escape (u "a<b") = u "a&lt;b" ∧ u "a<b" = [97; 60; 98]%N.
Proof.
  split; [reflexivity|]. apply html_escape_inj. reflexivity.
Defined.

Section FormatterErrors.

Lemma is_text_default (entry : dict) (k dflt : str) :
  is_text (dict_get_default entry k (VStr dflt)) ↔ text_field entry k.
Proof.
  unfold is_text, text_field, dict_get_default.
  destruct (entry !! k) as [v|]; cbn.
  - split; [by intros Hv ? [= <-] | by intros Hv; apply Hv].
  - split; [done | by eexists].
Qed.

Lemma escape_html_returns (v : value) :
  ((∃ s, escape_html v = Ok s) ↔ is_text v)
  ∧ (∀ e, escape_html v = Raise e → e = AttributeError).
Proof.
  unfold is_text. destruct v; cbn; (split; [split|]);
    try (by intros [? ?]); try (by intros ? [= <-]); try done; by eexists.
Qed.

Lemma normalize_summary_returns (v : value) :
  ((∃ s, normalize_summary v = Ok s) ↔ is_text v)
  ∧ (∀ e, normalize_summary v = Raise e → e = AttributeError).
Proof.
  unfold is_text. destruct v; cbn; (split; [split|]);
    try (by intros [? ?]); try (by intros ? [= <-]); try done; by eexists.
Qed.

Lemma build_message_raises (entry : dict) (e : exn) :
  build_message entry = Raise e → e = AttributeError.
Proof.
  unfold build_message. fold (chosen_body entry).
  pose proof (proj2 (escape_html_returns
    (dict_get_default entry (u "title") (VStr NO_TITLE)))) as Ht.
  pose proof (proj2 (escape_html_returns
    (dict_get_default entry (u "source_title") (VStr UNKNOWN_SOURCE)))) as Hs.
  pose proof (proj2 (normalize_summary_returns (chosen_body entry))) as Hb.
  pose proof (proj2 (escape_html_returns
    (dict_get_default entry (u "link") (VStr [])))) as Hl.
  destruct (escape_html (dict_get_default entry (u "title") _));
    [|by intros [= <-]; apply Ht].
  destruct (escape_html (dict_get_default entry (u "source_title") _));
    [|by intros [= <-]; apply Hs].
  destruct (normalize_summary (chosen_body entry));
    [|by intros [= <-]; apply Hb].
  destruct (escape_html (dict_get_default entry (u "link") _));
    [done|by intros [= <-]; apply Hl].
Qed.

(** X5. [build_message] returns a message exactly when the title, the
    source and the link are text where present and the value the body
    is taken from (the summary if truthy, else the description) is
    text; in every other case it raises [AttributeError], the error of
    calling a string method on a value that is no string. *)
Theorem build_message_returns_iff (entry : dict) :
  ((∃ message, build_message entry = Ok message) ↔
     text_field entry (u "title") ∧ text_field entry (u "source_title")
     ∧ is_text (chosen_body entry) ∧ text_field entry (u "link"))
  ∧ (∀ e, build_message entry = Raise e → e = AttributeError).
Proof.
  rewrite <-!is_text_default with (dflt := NO_TITLE) (k := u "title").
  rewrite <-!is_text_default with (dflt := UNKNOWN_SOURCE) (k := u "source_title").
  rewrite <-!is_text_default with (dflt := []) (k := u "link").
  unfold build_message. fold (chosen_body entry).
  destruct (escape_html_returns (dict_get_default entry (u "title") (VStr NO_TITLE)))
    as [Ht Ht'].
  destruct (escape_html_returns
              (dict_get_default entry (u "source_title") (VStr UNKNOWN_SOURCE)))
    as [Hs Hs'].
  destruct (normalize_summary_returns (chosen_body entry)) as [Hb Hb'].
  destruct (escape_html_returns (dict_get_default entry (u "link") (VStr [])))
    as [Hl Hl'].
  rewrite <-Ht, <-Hs, <-Hb, <-Hl.
  destruct (escape_html (dict_get_default entry (u "title") _)) as [title|e1].
  2:{ split; [|by intros e [= <-]; apply Ht'].
      split; [by intros [? ?] | by intros ([? ?] & _)]. }
  destruct (escape_html (dict_get_default entry (u "source_title") _))
    as [source|e2].
  2:{ split; [|by intros e [= <-]; apply Hs'].
      split; [by intros [? ?] | by intros (_ & [? ?] & _)]. }
  destruct (normalize_summary (chosen_body entry)) as [summary|e3].
  2:{ split; [|by intros e [= <-]; apply Hb'].
      split; [by intros [? ?] | by intros (_ & _ & [? ?] & _)]. }
  destruct (escape_html (dict_get_default entry (u "link") _)) as [link|e4].
  2:{ split; [|by intros e [= <-]; apply Hl'].
      split; [by intros [? ?] | by intros (_ & _ & _ & [? ?])]. }
  split; [|done]. split; [|by eexists].
  intros _. repeat split; by eexists.
Qed.

Lemma replace_char_removes (old new : N) (s : str) :
  old ≠ new → old ∉ replace_char old new s.
Proof.
  intros Hne. unfold replace_char. rewrite list_elem_of_fmap.
  intros (c & Hc & _). destruct (N.eqb_spec c old); congruence.
Qed.

Lemma py_lstrip_suffix (s : str) : py_lstrip s `suffix_of` s.
Proof.
  induction s as [|c s IH]; [by exists []|]. cbn.
  destruct (py_isspace c); [by apply suffix_cons_r | by exists []].
Qed.

Lemma py_strip_elem (c : N) (s : str) : c ∈ py_strip s → c ∈ s.
Proof.
  unfold py_strip, py_rstrip. rewrite elem_of_reverse.
  intros Hc.
  assert (c ∈ reverse (py_lstrip s)) as Hc'.
  { destruct (py_lstrip_suffix (reverse (py_lstrip s))) as [k Hk].
    rewrite Hk. apply elem_of_app. by right. }
  rewrite elem_of_reverse in Hc'.
  destruct (py_lstrip_suffix s) as [k Hk]. rewrite Hk.
  apply elem_of_app. by right.
Qed.

Lemma html_escape_newline (s : str) : NEWLINE ∈ html_escape s → NEWLINE ∈ s.
Proof.
  induction s as [|d s IH]; [done|]. rewrite html_escape_cons.
  intros [Hc|Hc]%elem_of_app; [|right; by apply IH].
  destruct (html_escape_char_cases d)
    as [[-> Hd]|[[-> Hd]|[[-> Hd]|[[-> Hd]|[[-> Hd]|[_ Hd]]]]]];
    rewrite Hd in Hc.
  1-5: apply list_elem_of_In in Hc; vm_compute in Hc;
    by repeat destruct Hc as [Hc|Hc].
  apply list_elem_of_singleton in Hc as <-. by left.
Qed.

(** X6. The body line of a message is one line of bounded length: what
    [build_message] makes of the summary holds no newline and at most
    200 characters before escaping, hence no newline and at most 1200
    characters after it (escaping comes after shortening and can
    lengthen the text again). *)
Theorem normalize_summary_one_line (summary : value) (body : str) :
  normalize_summary summary = Ok body →
  (length body ≤ 200)%nat ∧ (NEWLINE ∉ body)
  ∧ (length (html_escape body) ≤ 1200)%nat ∧ (NEWLINE ∉ html_escape body).
Proof.
  destruct summary as [|s| |]; try done. cbn [normalize_summary].
  intros [= <-]. set (t := py_strip (replace_char NEWLINE SPACE s)).
  assert (NEWLINE ∉ t) as Ht.
  { intros Hc%py_strip_elem. by apply replace_char_removes in Hc. }
  assert ((length (shorten_text t 200) ≤ 200)%nat
          ∧ NEWLINE ∉ shorten_text t 200) as [Hlen Hnl].
  { destruct (Nat.le_gt_cases (length t) 200) as [Hs|Hl].
    - by rewrite shorten_text_short.
    - destruct (shorten_text_long t Hl) as [Heq Hl']. rewrite Hl'.
      split; [done|]. rewrite Heq. intros [Hc|Hc]%elem_of_app.
      + by apply elem_of_take in Hc as (i & Hi & _); apply Ht;
          eapply list_elem_of_lookup_2.
      + by vm_compute in Hc; repeat (apply elem_of_cons in Hc as [?|Hc]; [done|]);
          apply elem_of_nil in Hc. }
  split; [done|]. split; [done|]. split.
  - pose proof (html_escape_length (shorten_text t 200)). lia.
  - intros Hc. apply Hnl. by apply html_escape_newline.
Qed.

End FormatterErrors.

Lemma normalize_summary_one_line_witness :
  normalize_summary (VStr (u " a b ")) = Ok (u "a b") ∧ (NEWLINE ∉ u "a b").
Proof.
  split; [reflexivity|].
  exact (proj1 (proj2 (normalize_summary_one_line (VStr (u " a b ")) (u "a b")
                         eq_refl))).
Defined.

Lemma build_message_returns_iff_witness :
  ∃ message, build_message entry_a_b = Ok message.
Proof.
  apply (proj2 (proj1 (build_message_returns_iff entry_a_b))).
  split; [|split; [|split]].
  - intros v Hv. vm_compute in Hv. injection Hv as <-. by eexists.
  - intros v Hv. vm_compute in Hv. discriminate Hv.
  - by eexists.
  - intros v Hv. vm_compute in Hv. injection Hv as <-. by eexists.
Defined.

(** * The address list and the bootstrap *)

Section Config.

Lemma py_lstrip_idemp (s : str) : py_lstrip (py_lstrip s) = py_lstrip s.
Proof.
  induction s as [|c s IH]; [done|]. cbn.
  destruct (py_isspace c) eqn:Hc; [done|]. cbn. by rewrite Hc.
Qed.

Lemma py_lstrip_snoc (a : str) (c : N) :
  py_lstrip (a ++ [c])
  = match py_lstrip a with
    | [] => py_lstrip [c]
    | r => r ++ [c]
    end.
Proof.
  induction a as [|d a IH]; [done|]. cbn.
  destruct (py_isspace d); [apply IH | done].
Qed.

(** [rstrip] keeps a text that starts with a character [lstrip] would
    keep starting with it. *)
Lemma py_lstrip_rstrip (t : str) :
  py_lstrip t = t → py_lstrip (py_rstrip t) = py_rstrip t.
Proof.
  destruct t as [|c t]; [done|]. intros Heq.
  assert (py_isspace c = false) as Hc.
  { destruct (py_isspace c) eqn:Hc; [|done].
    cbn [py_lstrip] in Heq. rewrite Hc in Heq.
    destruct (py_lstrip_suffix t) as [k Hk].
    rewrite Heq in Hk. apply (f_equal length) in Hk.
    rewrite length_app in Hk. cbn in Hk. lia. }
  unfold py_rstrip. rewrite reverse_cons, py_lstrip_snoc.
  destruct (py_lstrip (reverse t)) as [|d r] eqn:Hr.
  - cbn [py_lstrip]. rewrite Hc, reverse_singleton.
    cbn [py_lstrip]. by rewrite Hc.
  - rewrite reverse_app, reverse_singleton. cbn [app py_lstrip].
    by rewrite Hc.
Qed.

Lemma py_strip_idemp (s : str) : py_strip (py_strip s) = py_strip s.
Proof.
  unfold py_strip.
  rewrite (py_lstrip_rstrip (py_lstrip s)) by apply py_lstrip_idemp.
  unfold py_rstrip. by rewrite reverse_involutive, py_lstrip_idemp.
Qed.

Lemma config_urls_filter (lines urls : list str) :
  config_urls lines urls = urls ++ filter is_address (py_strip <$> lines).
Proof.
  revert urls. induction lines as [|line lines IH]; intros urls.
  - by rewrite app_nil_r.
  - cbn [config_urls fmap list_fmap]. rewrite filter_cons.
    destruct (decide (is_address (py_strip line))) as [[Hne Hhash]|Hno].
    + rewrite bool_decide_false, Hhash by done. cbn.
      by rewrite IH, <-app_assoc.
    + rewrite IH.
      destruct (bool_decide (py_strip line = [])) eqn:Hnil; [done|].
      destruct (startswith_hash (py_strip line)) eqn:Hhash; [done|].
      destruct Hno. split; [by apply bool_decide_eq_false in Hnil | done].
Qed.

(** X7. [load_config_urls] reads without changing anything and returns,
    in the order of the file and with repetitions, the stripped lines
    of the text (as text mode delivers it) that are neither blank nor
    comments; so every address it returns is non-empty, does not start
    with the comment mark and has no white space around it.  Without
    the file it raises [FileNotFoundError]. *)
Theorem load_config_urls_spec (w : world) :
  (∀ text, config_file w = Some text →
     load_config_urls w
     = (Ok (filter is_address (py_strip <$> split_on NEWLINE text)), w))
  ∧ (∀ urls w', load_config_urls w = (Ok urls, w') →
       Forall (λ url, url ≠ [] ∧ startswith_hash url = false
                      ∧ py_strip url = url) urls)
  ∧ (config_file w = None → load_config_urls w = (Raise FileNotFoundError, w)).
Proof.
  unfold load_config_urls, ret, raise. split; [|split].
  - intros text ->. by rewrite config_urls_filter.
  - intros urls w'. destruct (config_file w) as [text|]; [|done].
    intros [= <- <-]. rewrite config_urls_filter. cbn [app].
    apply Forall_forall. intros url [[Hne Hhash] Hin]%list_elem_of_filter.
    apply list_elem_of_fmap in Hin as (line & -> & _).
    repeat split; [done..|]. apply py_strip_idemp.
  - by intros ->.
Qed.

(** X8. The two [ensure_..._exists] steps never touch a file that
    exists, create a missing one with its default text (the commented
    example list, the empty JSON array), and doing them again changes
    nothing.  A store created this way loads as the empty set. *)
Theorem ensure_exists_spec (w : world) :
  (∀ text, config_file w = Some text → ensure_config_exists w = (Ok tt, w))
  ∧ (∀ text, history_file w = Some text → ensure_history_exists w = (Ok tt, w))
  ∧ (config_file w = None →
       config_file (ensure_config_exists w).2 = Some default_content
       ∧ history_file (ensure_config_exists w).2 = history_file w)
  ∧ (history_file w = None →
       history_file (ensure_history_exists w).2 = Some (json_dump [])
       ∧ config_file (ensure_history_exists w).2 = config_file w
       ∧ load_history (ensure_history_exists w).2
         = (Ok ∅, (ensure_history_exists w).2))
  ∧ ensure_config_exists (ensure_config_exists w).2
    = (Ok tt, (ensure_config_exists w).2)
  ∧ ensure_history_exists (ensure_history_exists w).2
    = (Ok tt, (ensure_history_exists w).2).
Proof.
  unfold ensure_config_exists, ensure_history_exists, bind, write_config,
    write_history, emit, ret.
  destruct w as [tok cfg hist n tr]. cbn.
  repeat split.
  all: try (by intros text ->); try (by intros ->); try (by simplify_eq).
  - by destruct cfg.
  - by destruct hist.
Qed.

End Config.

Lemma load_config_urls_spec_witness :
  let w := World None
    (Some (u "  # feeds" ++ [NEWLINE] ++ u " http://a/rss  " ++ [NEWLINE]
           ++ [NEWLINE] ++ u "#x" ++ [NEWLINE] ++ u "http://b")) None 0 [] in
  load_config_urls w = (Ok [u "http://a/rss"; u "http://b"], w).
Proof.
  intros w.
  exact (proj1 (load_config_urls_spec w) _ eq_refl).
Defined.

Lemma ensure_exists_spec_witness :
  load_history (ensure_history_exists world0).2
  = (Ok ∅, (ensure_history_exists world0).2).
Proof.
  exact (proj2 (proj2 (proj1 (proj2 (proj2 (proj2 (ensure_exists_spec world0)))) eq_refl))).
Defined.

(** * Fetching *)

Section Fetch.
Context `{Collaborators}.

Lemma fetch_loop_trace (urls : list str) :
  ∀ entries w, ∃ fetched,
    fetch_loop urls entries w
    = (Ok fetched,
       World (env_token w) (config_file w) (history_file w) (clock_calls w)
             (trace w ++ (urls ≫= λ url, [EvFetch url; EvSleep]))).
Proof.
  induction urls as [|url urls IH]; intros entries w.
  - exists entries. cbn. rewrite app_nil_r. by destruct w.
  - cbn [fetch_loop]. unfold bind, emit. cbn.
    edestruct IH as [fetched ->]. exists fetched. cbn.
    by rewrite <-!app_assoc.
Qed.

(** X9. [fetch_entries] asks the parser once per address, in the order
    of the list, and pauses after each; with a parser that answers
    every address (feedparser reports a broken feed inside its answer)
    it always returns, and it changes nothing else in the world. *)
Theorem fetch_entries_trace (urls : list str) (w : world) :
  ∃ entries,
    fetch_entries urls w
    = (Ok entries,
       World (env_token w) (config_file w) (history_file w) (clock_calls w)
             (trace w ++ (urls ≫= λ url, [EvFetch url; EvSleep]))).
Proof. apply fetch_loop_trace. Qed.





End Fetch.


(** * Further properties of the selection pass *)

Section SelectionMore.
Context `{Collaborators}.

Lemma extract_entry_timestamp_raises (entry : dict) (ex : exn) :
  extract_entry_timestamp entry = Raise ex →
  ex = TypeError ∨ ex = OverflowError.
Proof.
  rewrite extract_entry_timestamp_priority. unfold return_mktime, time_mktime.
  intros Hex. repeat case_match; simplify_eq; auto.
Qed.

Lemma select_loop_raises (entries : list dict) :
  ∀ new_entries history w ex w',
    select_loop entries new_entries history w = (Raise ex, w') →
    ex = TypeError ∨ ex = OverflowError.
Proof.
  induction entries as [|entry entries IH]; intros new_entries history w ex w';
    [done|].
  rewrite select_loop_cons.
  destruct (extract_entry_timestamp entry) as [[ts|]|ex0] eqn:Hts.
  - destruct (Qle_bool _ _); [destruct (decide _)|]; apply IH.
  - apply IH.
  - intros [= <- <-]. by eapply extract_entry_timestamp_raises.
Qed.

(** X11. The selection pass completes exactly on the batches in which
    every entry has a timestamp that can be extracted, or none at all.
    One entry whose date field holds a truthy value that is no
    [struct_time], or one that [time.mktime] cannot convert, makes the
    whole pass raise ([TypeError] or [OverflowError]), whatever the
    other entries are. *)
Theorem select_loop_returns_iff (entries new_entries : list dict)
    (history : gset str) (w : world) :
  ((∃ sel h' w', select_loop entries new_entries history w = (Ok (sel, h'), w'))
   ↔ Forall (λ e, ∃ ts, extract_entry_timestamp e = Ok ts) entries)
  ∧ (∀ ex w', select_loop entries new_entries history w = (Raise ex, w') →
       ex = TypeError ∨ ex = OverflowError).
Proof.
  split; [split|].
  - revert new_entries history w.
    induction entries as [|entry entries IH];
      intros new_entries history w (sel & h' & w' & Hrun); [constructor|].
    rewrite select_loop_cons in Hrun.
    destruct (extract_entry_timestamp entry) as [ts|ex] eqn:Hts; [|done].
    constructor; [by eexists|].
    destruct ts as [ts|]; [|by eapply IH; eauto].
    destruct (Qle_bool _ _); [destruct (decide _)|]; eapply IH; eauto.
  - apply select_loop_total.
  - apply select_loop_raises.
Qed.

Lemma select_loop_selected_recent (entries : list dict) :
  ∀ history w sel h' w',
    select_loop entries [] history w = (Ok (sel, h'), w') →
    ∀ e, e ∈ sel → ∃ a b, entries = a ++ e :: b ∧ recent_at_turn a e w.
Proof.
  induction entries as [|entry entries IH]; intros history w sel h' w' Hrun e He.
  - cbn in Hrun. unfold ret in Hrun. simplify_eq. by apply elem_of_nil in He.
  - rewrite select_loop_cons in Hrun.
    destruct (extract_entry_timestamp entry) as [[ts|]|ex] eqn:Hts; [| |done].
    + assert (∀ sel h' w',
                select_loop entries [] history (tick w) = (Ok (sel, h'), w') →
                e ∈ sel → ∃ a b, entry :: entries = a ++ e :: b
                                 ∧ recent_at_turn a e w) as Hskip.
      { intros sel0 h0 w0 Hrun0 He0.
        destruct (IH _ _ _ _ _ Hrun0 e He0) as (a & b & -> & Hrec).
        exists (entry :: a), b. split; [done|].
        by rewrite recent_at_turn_cons_timestamped. }
      destruct (Qle_bool _ _) eqn:Hq; [|by eapply Hskip].
      destruct (decide _) as [Hseen|Hfresh]; [by eapply Hskip|].
      rewrite select_loop_acc in Hrun.
      destruct (select_loop entries [] _ (tick w)) as [[[added h1]|ex] w1] eqn:Hrest;
        [|done].
      injection Hrun as <- <- <-.
      apply elem_of_cons in He as [->|He].
      * exists [], entries.
        split; [done|]. unfold recent_at_turn. cbn [select_loop]. unfold ret.
        cbn [snd]. by rewrite is_recent_entry_run, Hts; cbn; rewrite Hq.
      * destruct (IH _ _ _ _ _ Hrest e He) as (a & b & -> & Hrec).
        exists (entry :: a), b. split; [done|].
        by rewrite recent_at_turn_cons_timestamped.
    + destruct (IH _ _ _ _ _ Hrun e He) as (a & b & -> & Hrec).
      exists (entry :: a), b. split; [done|].
      by rewrite recent_at_turn_cons_undated.
Qed.

(** X12. The selected entries are taken from the batch in batch order;
    their keys are pairwise distinct and none of them was in the input
    seen-set; and each of them stands at a place of the batch where it
    was recent when its turn came. *)
Theorem select_loop_selected (entries : list dict) (history : gset str)
    (w : world) sel h' w' :
  select_loop entries [] history w = (Ok (sel, h'), w') →
  sel `sublist_of` entries
  ∧ NoDup (extract_entry_id <$> sel)
  ∧ ∀ e, e ∈ sel →
      (extract_entry_id e ∉ history)
      ∧ ∃ a b, entries = a ++ e :: b ∧ recent_at_turn a e w.
Proof.
  intros Hrun.
  destruct (select_loop_inv _ _ _ _ _ _ Hrun) as (_ & Hnew & Hnodup & Hsub).
  split; [done|]. split; [done|]. intros e He. split; [by apply Hnew|].
  by eapply select_loop_selected_recent.
Qed.

(** X13. Nothing recent is left behind: after a pass, the key of every
    entry of the batch that was recent when its turn came is in the
    returned seen-set (it was there before, or the entry, or an earlier
    one with the same key, was selected). *)
Theorem select_loop_covers_recent (entries : list dict) (history : gset str)
    (w : world) sel h' w' :
  select_loop entries [] history w = (Ok (sel, h'), w') →
  ∀ a x b, entries = a ++ x :: b → recent_at_turn a x w →
           extract_entry_id x ∈ h'.
Proof.
  intros Hrun a x b -> Hrecent.
  rewrite select_loop_app in Hrun.
  destruct (select_loop a [] history w) as [[[s1 h1]|ex] w1] eqn:Hpre; [|done].
  unfold recent_at_turn in Hrecent.
  rewrite (select_loop_world a _ _ [] history), Hpre in Hrecent.
  cbn [snd] in Hrecent. rewrite is_recent_entry_run in Hrecent.
  rewrite select_loop_cons in Hrun.
  destruct (extract_entry_timestamp x) as [[ts|]|ex]; [|done..].
  cbn in Hrecent. injection Hrecent as Hrecent.
  change (1 * 24 * 60 * 60) with (MAX_FETCH_DAYS * 24 * 60 * 60) in Hrecent.
  rewrite Hrecent in Hrun.
  destruct (decide _) as [Hseen|Hfresh];
    pose proof (select_loop_history_mono _ _ _ _ _ _ _ Hrun) as Hmono;
    set_solver.
Qed.

Lemma select_loop_clock (entries : list dict) :
  ∀ new_entries history w sel h' w',
    select_loop entries new_entries history w = (Ok (sel, h'), w') →
    clock_calls w' = (clock_calls w + length (filter (λ e, is_dated e = true) entries))%nat.
Proof.
  induction entries as [|entry entries IH]; intros new_entries history w sel h' w'.
  - intros [= <- <- <-]. cbn. lia.
  - rewrite select_loop_cons.
    destruct (extract_entry_timestamp entry) as [[ts|]|ex] eqn:Hts; [| |done].
    + rewrite filter_cons_True by (unfold is_dated; by rewrite Hts).
      cbn [length].
      destruct (Qle_bool _ _); [destruct (decide (_ ∈ _))|];
        intros Hrun; rewrite (IH _ _ _ _ _ _ Hrun); cbn; lia.
    + rewrite filter_cons_False by (unfold is_dated; by rewrite Hts).
      apply IH.
Qed.

(** X14. The selection pass has no effect but reading the clock: it
    leaves the environment, both files and the trace as they are,
    whether it returns or raises, and when it returns it has read the
    clock once for each entry with a timestamp and never for one
    without. *)
Theorem select_loop_effects (entries new_entries : list dict)
    (history : gset str) (w : world) out w' :
  select_loop entries new_entries history w = (out, w') →
  w' = World (env_token w) (config_file w) (history_file w)
             (clock_calls w') (trace w)
  ∧ (∀ sel h', out = Ok (sel, h') →
       clock_calls w'
       = (clock_calls w + length (filter (λ e, is_dated e = true) entries))%nat).
Proof.
  intros Hrun. split; [by eapply select_loop_frame|].
  intros sel h' ->. by eapply select_loop_clock.
Qed.

(** X15. Recency is monotone.  An entry recent within [d] days is
    recent within any longer window; an entry found too old at one
    clock reading is too old at every later one; and an entry dated at
    or after the clock reading (a date in the future) is recent in
    every window of zero or more days. *)
Theorem is_recent_entry_monotone (entry : dict) (w : world) :
  (∀ d d', d ≤ d' →
     (is_recent_entry entry d w).1 = Ok true →
     (is_recent_entry entry d' w).1 = Ok true)
  ∧ (∀ d w_later,
       (time_time (clock_calls w) <= time_time (clock_calls w_later))%Q →
       (is_recent_entry entry d w).1 = Ok false →
       (is_recent_entry entry d w_later).1 = Ok false)
  ∧ (∀ d ts, 0 ≤ d →
       extract_entry_timestamp entry = Ok (Some ts) →
       (time_time (clock_calls w) <= ts)%Q →
       (is_recent_entry entry d w).1 = Ok true).
Proof.
  split; [|split].
  - intros d d' Hd. rewrite !is_recent_entry_run.
    destruct (extract_entry_timestamp entry) as [[ts|]|ex]; [|done..]. cbn.
    intros [= Hle]. f_equal. apply Qle_bool_iff. apply Qle_bool_iff in Hle.
    eapply Qle_trans; [exact Hle|]. rewrite <-Zle_Qle. lia.
  - intros d w_later Hclock. rewrite !is_recent_entry_run.
    destruct (extract_entry_timestamp entry) as [[ts|]|ex]; [|done..]. cbn.
    intros [= Hold]. f_equal. apply not_true_iff_false.
    apply not_true_iff_false in Hold. rewrite Qle_bool_iff in *. lra.
  - intros d ts Hd Hts Hfuture. rewrite is_recent_entry_run, Hts. cbn.
    f_equal. apply Qle_bool_iff.
    assert (0 <= inject_Z (d * 24 * 60 * 60))%Q
      by (change 0%Q with (inject_Z 0); rewrite <-Zle_Qle; lia).
    lra.
Qed.

End SelectionMore.

Lemma select_loop_selected_witness :
  let C := sample_collaborators 1000000 [] in
  [entry_t1] `sublist_of` [entry_t1; entry_t2].
Proof.
  intros C.
  refine (proj1 (@select_loop_selected C [entry_t1; entry_t2] ∅ world0
                   [entry_t1] {[u "http://x/1::T"]} (tick (tick world0)) _)).
  vm_compute; reflexivity.
Defined.

Lemma select_loop_covers_recent_witness :
  let C := sample_collaborators 1000000 [] in
  extract_entry_id entry_t2 ∈ ({[u "http://x/1::T"]} : gset str).
Proof.
  intros C.
  refine (@select_loop_covers_recent C [entry_t1; entry_t2] ∅ world0
            [entry_t1] {[u "http://x/1::T"]} (tick (tick world0)) _
            [entry_t1] entry_t2 [] eq_refl _).
  - vm_compute; reflexivity.
  - reflexivity.
Defined.

Lemma select_loop_effects_witness :
  let C := sample_collaborators 1000000 [] in
  clock_calls (tick (tick world0))
  = (clock_calls world0
     + length (filter (λ e, @is_dated C e = true) [entry_t1; entry_t2]))%nat.
Proof.
  intros C.
  refine (proj2 (@select_loop_effects C [entry_t1; entry_t2] [] ∅ world0
                   (Ok ([entry_t1], {[u "http://x/1::T"]}))
                   (tick (tick world0)) _) _ _ eq_refl).
  vm_compute; reflexivity.
Defined.

Lemma is_recent_entry_monotone_witness :
  let C := sample_collaborators 0 [] in
  (@is_recent_entry C entry_t1 0 world0).1 = Ok true.
Proof.
  intros C.
  refine (proj2 (proj2 (@is_recent_entry_monotone C entry_t1 world0))
            0 (inject_Z 999900) _ eq_refl _).
  - lia.
  - vm_compute. discriminate.
Defined.

Lemma select_loop_returns_iff_witness :
  let C := sample_collaborators 0 [] in
  let bad : dict := <[u "published_parsed" := VStr (u "yesterday")]> ∅ in
  @select_loop C [entry_t1; bad] [] ∅ world0 = (Raise TypeError, tick world0)
  ∧ (TypeError = TypeError ∨ TypeError = OverflowError).
Proof.
  intros C bad.
  assert (@select_loop C [entry_t1; bad] [] ∅ world0
          = (Raise TypeError, tick world0)) as Hrun by (vm_compute; reflexivity).
  split; [exact Hrun|].
  exact (proj2 (@select_loop_returns_iff C [entry_t1; bad] [] ∅ world0) _ _ Hrun).
Defined.

(** * Further properties of the run *)

Section RunMore.
Context `{Collaborators}.

Lemma send_loop_attempts (token : str) (sel : list dict) :
  ∀ w, ∃ out sends,
    send_loop token sel w
    = (out, World (env_token w) (config_file w) (history_file w)
                  (clock_calls w) (trace w ++ sends))
    ∧ Forall2 (attempt_for token) (take (length sends) sel) sends
    ∧ (length sends ≤ length sel)%nat
    ∧ (out = Ok tt → length sends = length sel)
    ∧ (∀ ex, out = Raise ex →
         ex = AttributeError ∨ ex = RuntimeError ∨ ex = URLError).
Proof.
  induction sel as [|entry sel IH]; intros w.
  - exists (Ok tt), []. rewrite app_nil_r. destruct w.
    split; [done|]. split; [by apply Forall2_nil|]. by repeat split.
  - cbn [send_loop]. unfold bind at 1, lift.
    destruct (build_message entry) as [message|ex] eqn:Hmsg.
    2:{ exists (Raise ex), []. rewrite app_nil_r. destruct w.
        split; [done|]. split; [by apply Forall2_nil|].
        split; [cbn; lia|]. split; [done|].
        intros ? [= <-]. left.
        by apply (build_message_raises entry). }
    unfold bind at 1, send_to_telegram. unfold bind at 1, emit. cbn.
    assert (attempt_for token entry
              (EvSend (TELEGRAM_API_BASE ++ u "/bot" ++ token ++ u "/sendMessage")
                      TELEGRAM_CHAT_ID message)) as Hattempt by (by eexists).
    destruct (urlopen _ _ _ _) as [status|] eqn:Hopen.
    + destruct (status =? 200) eqn:Hstatus.
      * unfold ret. edestruct IH as (out & sends & -> & Hall & Hlen & Hok & Hex).
        eexists out, (_ :: sends). cbn. rewrite <-app_assoc. cbn.
        split; [done|]. split; [by constructor|].
        split; [lia|]. split; [|done]. intros Hout. by rewrite Hok.
      * eexists (Raise RuntimeError), [_]. cbn.
        split; [done|]. split; [by repeat constructor|].
        split; [lia|]. split; [done|]. intros ? [= <-]. auto.
    + eexists (Raise URLError), [_]. cbn.
      split; [done|]. split; [by repeat constructor|].
      split; [lia|]. split; [done|]. intros ? [= <-]. auto.
Qed.


Lemma json_load_blank (st : json_state) (items : list str) (acc text : str) :
  st ≠ JEnd → Forall (λ c, json_isspace c = true) text →
  json_scan st items acc text = None.
Proof.
  intros Hst Hblank. revert acc.
  induction Hblank as [|c text Hc _ IH]; intros acc.
  - by destruct st.
  - assert ((c =? 34)%N = false ∧ (c =? 92)%N = false) as (Hq & Hb).
    { unfold json_isspace in Hc.
      repeat (apply orb_true_iff in Hc as [Hc|Hc]);
        apply N.eqb_eq in Hc as ->; by vm_compute. }
    destruct st; cbn [json_scan]; rewrite ?Hc, ?Hq, ?Hb; try done.
    by destruct (c <? 32)%N.
Qed.

(** X17. An empty or blank [data.json] stops the run before anything
    is fetched: with the credential set and a non-empty address list,
    [main] raises [JSONDecodeError] from [load_history], the exit
    status is 1, and nothing was fetched, sent or saved. *)
Theorem main_blank_history (w : world) (token text : str) (urls : list str) :
  env_token w = Some token → token ≠ [] →
  load_config_urls (bootstrap w) = (Ok urls, bootstrap w) → urls ≠ [] →
  history_file w = Some text →
  Forall (λ c, json_isspace c = true) text →
  main w = (Raise JSONDecodeError, bootstrap w)
  ∧ exit_status (main w).1 = 1
  ∧ history_file (main w).2 = Some text
  ∧ ∃ events, trace (main w).2 = trace w ++ events ∧ Forall quiet events.
Proof.
  intros Htok Hne Hurls Hnonempty Hhist Hblank.
  destruct (bootstrap_spec w) as (_ & _ & _ & Hbh & created & Htr & Hq).
  pose proof (load_config_urls_bootstrap w) as Hload.
  rewrite Hurls in Hload. injection Hload as Hurls_eq.
  rewrite main_run. cbn zeta. rewrite Htok, <-Hurls_eq.
  destruct token as [|c token]; [done|].
  rewrite bool_decide_false by done.
  rewrite Hhist. cbn [default]. unfold json_load.
  rewrite json_load_blank by done. cbn.
  split; [done|]. split; [done|]. split; [by rewrite Hbh, Hhist|].
  by exists created.
Qed.

(** X18. A send that fails ends the run with exit status 1 and without
    a save: [main] raises what the send loop raised, [data.json] is as
    the bootstrap left it, and no save follows the bootstrap, although
    the loop may have sent earlier entries of the selection. *)
Theorem main_failed_send (w : world) token urls history entries wf sel h' ws
    ex w3 :
  env_token w = Some token → token ≠ [] →
  load_config_urls (bootstrap w) = (Ok urls, bootstrap w) → urls ≠ [] →
  load_history (bootstrap w) = (Ok history, bootstrap w) →
  fetch_entries urls (bootstrap w) = (Ok entries, wf) →
  select_loop entries [] history wf = (Ok (sel, h'), ws) →
  send_loop token sel ws = (Raise ex, w3) →
  main w = (Raise ex, w3)
  ∧ exit_status (main w).1 = 1
  ∧ history_file (main w).2 = history_file (bootstrap w)
  ∧ Forall (λ ev, is_save ev = false)
           (drop (length (trace (bootstrap w))) (trace (main w).2)).
Proof.
  intros Htok Hne Hurls Hnonempty Hhist Hfetch Hsel Hsend.
  pose proof (load_config_urls_bootstrap w) as Hload_urls.
  pose proof (load_history_bootstrap w) as Hload_hist.
  rewrite Hurls in Hload_urls. injection Hload_urls as Hurls_eq.
  rewrite Hhist in Hload_hist.
  assert (main w = (Raise ex, w3)) as Hmain.
  { rewrite main_run. cbn zeta. rewrite Htok, <-Hurls_eq.
    destruct token as [|c token]; [done|].
    rewrite bool_decide_false by done.
    destruct (json_load _) as [data|]; [|done].
    injection Hload_hist as Hdata. rewrite <-Hdata, Hfetch, Hsel.
    case_bool_decide as Hnil; [|by rewrite Hsend].
    subst sel. cbn in Hsend. unfold ret in Hsend. done. }
  rewrite Hmain. cbn [fst snd].
  destruct (send_loop_attempts token sel ws)
    as (out & sends & Hrun & Hall & _ & _ & Hex).
  rewrite Hsend in Hrun. injection Hrun as <- ->.
  destruct (fetch_loop_run urls [] (bootstrap w)) as (fetched & events & Hf & Hev).
  fold (fetch_entries urls) in Hf. rewrite Hfetch in Hf. injection Hf as <- ->.
  pose proof (select_loop_frame _ _ _ _ _ _ Hsel) as Hws.
  split; [done|]. split; [|split].
  - by destruct (Hex ex eq_refl) as [->|[->| ->]].
  - cbn. by rewrite Hws.
  - cbn. rewrite Hws. cbn. rewrite <-app_assoc, drop_app_length.
    apply Forall_app. split.
    + eapply Forall_impl; [exact Hev|]. by intros ev [_ ?].
    + clear -Hall. induction Hall as [|e ev l k (m & _ & ->) _ IH];
        by constructor.
Qed.

End RunMore.

Section RunTwice.
Context `{Collaborators}.

(** X19. The exit status is 0 or 1, and 0 only when [main] returns:
    every way [main] can raise in the modelled world (the missing
    credential, a store that does not parse, a date that cannot be
    converted, a message that cannot be built, a failed send) ends the
    run with status 1.  [FileNotFoundError] is not among them: the
    bootstrap has created the two files before they are read. *)
Theorem main_exit_status_zero_or_one (w : world) :
  ((main w).1 = Ok tt ∧ exit_status (main w).1 = 0)
  ∨ (∃ ex, (main w).1 = Raise ex ∧ exit_status (main w).1 = 1
           ∧ ex ∈ [SystemExit 1; JSONDecodeError; TypeError; OverflowError;
                   AttributeError; RuntimeError; URLError]).
Proof.
  rewrite main_run. cbn zeta.
  destruct (env_token w) as [[|c token]|].
  - right. eexists. cbn. repeat split. set_solver.
  - case_bool_decide; [by left|].
    destruct (json_load _) as [data|];
      [|right; eexists; cbn; repeat split; set_solver].
    destruct (fetch_loop_run
                (config_urls (split_on NEWLINE
                   (default default_content (config_file w))) [])
                [] (bootstrap w)) as (entries & fetched & Hfetch & _).
    fold (fetch_entries
            (config_urls (split_on NEWLINE
               (default default_content (config_file w))) [])) in Hfetch.
    rewrite Hfetch.
    destruct (select_loop entries [] _ _) as [[[sel h']|ex] ws] eqn:Hsel.
    2:{ right. exists ex. cbn.
        destruct (select_loop_raises _ _ _ _ _ _ Hsel) as [-> | ->];
          repeat split; set_solver. }
    case_bool_decide; [by left|].
    destruct (send_loop_attempts (c :: token) sel ws)
      as (out & sends & -> & _ & _ & _ & Hex).
    destruct out as [[]|ex]; [by left|].
    right. exists ex. cbn.
    destruct (Hex ex eq_refl) as [->|[->| ->]]; repeat split; set_solver.
  - right. eexists. cbn. repeat split. set_solver.
Qed.

(** X20. Running twice in a row announces nothing twice.  After a run
    that returned, a second run that finds the same credential and the
    two files as the first run left them, gets the same entries from
    the same addresses, and reads a clock that has not gone back,
    returns as well, sends nothing, saves nothing and leaves
    [data.json] as it is. *)
Theorem main_second_run_quiet (w w1 w2 : world) :
  main w = (Ok tt, w1) →
  env_token w2 = env_token w1 →
  config_file w2 = config_file w1 →
  history_file w2 = history_file w1 →
  (∀ urls, load_config_urls (bootstrap w) = (Ok urls, bootstrap w) →
           (fetch_entries urls (bootstrap w2)).1
           = (fetch_entries urls (bootstrap w)).1) →
  (∀ k, (time_time (clock_calls w + k) <= time_time (clock_calls w2 + k))%Q) →
  (main w2).1 = Ok tt
  ∧ history_file (main w2).2 = history_file w2
  ∧ ∃ events, trace (main w2).2 = trace w2 ++ events
              ∧ Forall (λ ev, is_send ev = false ∧ is_save ev = false) events.
Proof.
  intros Hrun Henv Hcfg Hhist Hsame Hclock.
  destruct (bootstrap_spec w) as (Htok & Hclk & Hbcfg & Hbhist & _).
  destruct (bootstrap_spec w2)
    as (Htok2 & Hclk2 & Hbcfg2 & Hbhist2 & created2 & Htr2 & Hq2).
  specialize (Hsame _ (load_config_urls_bootstrap w)).
  set (urls := config_urls
                 (split_on NEWLINE (default default_content (config_file w))) [])
    in *.
  rewrite main_run in Hrun. cbn zeta in Hrun. fold urls in Hrun.
  (* what the first run left behind *)
  assert (env_token w1 = env_token w
          ∧ config_file w1 = Some (default default_content (config_file w))
          ∧ (∃ text, history_file w1 = Some text)
          ∧ ((bool_decide (urls = []) = true)
             ∨ (bool_decide (urls = []) = false
                ∧ ∃ data entries wf sel h' ws text1,
                  json_load (default (json_dump []) (history_file w)) = Some data
                  ∧ fetch_entries urls (bootstrap w) = (Ok entries, wf)
                  ∧ clock_calls wf = clock_calls w
                  ∧ select_loop entries [] (list_to_set data) wf
                    = (Ok (sel, h'), ws)
                  ∧ history_file w1 = Some text1
                  ∧ ∃ data1, json_load text1 = Some data1
                             ∧ h' ⊆ list_to_set data1)))
    as (Henv1 & Hcfg1 & (text & Htext) & Hfirst).
  { destruct (env_token w) as [[|c token]|] eqn:Hw; [done| |done].
    case_bool_decide as Hurls.
    { cbn in Hrun. injection Hrun as <-. cbn. rewrite Hbcfg, Hbhist, Htok.
      split; [done|]. split; [done|]. split; [by eexists|by left]. }
    destruct (json_load (default (json_dump []) (history_file w)))
      as [data|] eqn:Hload; [|done].
    destruct (fetch_loop_run urls [] (bootstrap w))
      as (entries & fetched & Hfetch & _).
    fold (fetch_entries urls) in Hfetch. rewrite Hfetch in Hrun.
    set (wf := World _ _ _ _ _) in *.
    destruct (select_loop entries [] (list_to_set data) wf)
      as [[[sel h']|ex] ws] eqn:Hsel; [|done].
    pose proof (select_loop_frame _ _ _ _ _ _ Hsel) as Hws.
    destruct (select_loop_inv _ _ _ _ _ _ Hsel) as (Hh' & _).
    case_bool_decide as Hnil.
    - injection Hrun as <-. rewrite Hws. cbn. rewrite Hbcfg, Hbhist, Htok.
      split; [done|]. split; [done|]. split; [by eexists|].
      right. split; [done|].
      exists data, entries, wf, sel, h', ws, (default (json_dump []) (history_file w)).
      repeat split; try done. exists data. split; [done|].
      subst sel. rewrite Hh'. set_solver.
    - destruct (send_loop_attempts (c :: token) sel ws)
        as (out & sends & Hsend & _).
      rewrite Hsend in Hrun. destruct out as [[]|ex]; [|done].
      rewrite save_history_run in Hrun. injection Hrun as <-. cbn.
      rewrite Hws. cbn. rewrite Hbcfg, Htok.
      split; [done|]. split; [done|]. split; [by eexists|].
      right. split; [done|].
      exists data, entries, wf, sel, h', ws, (json_dump (sorted (elements h'))).
      repeat split; try done.
      exists (sorted (elements h')). split; [apply json_load_dump|].
      rewrite (list_to_set_sorted h'); [done|].
      intros x. apply elem_of_elements. }
  (* the second run *)
  rewrite main_run. cbn zeta.
  rewrite Henv, Henv1, Hcfg, Hcfg1, Hhist. cbn [from_option id]. fold urls.
  destruct (env_token w) as [[|c token]|]; [done| |done].
  destruct Hfirst as [Hnone|(Hsome & data & entries & wf & sel & h' & ws & text1
                             & Hload & Hfetch & Hclkf & Hsel & Hfile1
                             & data1 & Hload1 & Hsub)].
  - rewrite Hnone. cbn. rewrite Hbhist2, Hhist, Htext.
    split; [done|]. split; [done|].
    + exists (created2 ++ [EvPrint MSG_NO_URLS]). rewrite Htr2, <-app_assoc.
      split; [done|]. apply Forall_app. split; [|by repeat constructor].
      eapply Forall_impl; [exact Hq2|]. by intros ev (_ & ? & ?).
  - rewrite Hsome, Hfile1. cbn [from_option id]. rewrite Hload1.
    destruct (fetch_loop_run urls [] (bootstrap w2))
      as (entries2 & fetched2 & Hfetch2 & Hfetched2).
    fold (fetch_entries urls) in Hfetch2.
    rewrite Hfetch2, Hfetch in Hsame. cbn in Hsame.
    injection Hsame as ->. rewrite Hfetch2.
    set (wf2 := World _ _ _ _ _) in *.
    destruct (select_loop_second_pass entries [] (list_to_set data) wf sel h' ws
                [] (list_to_set data1) wf2 Hsel Hsub) as [ws2 Hsel2].
    { intros k. rewrite Hclkf. subst wf2. cbn. rewrite Hclk2. apply Hclock. }
    rewrite Hsel2. cbn.
    rewrite (select_loop_frame _ _ _ _ _ _ Hsel2). cbn.
    split; [done|]. split; [by rewrite Hbhist2, Hhist, Hfile1|].
    exists (created2 ++ fetched2). rewrite Htr2, <-app_assoc.
    split; [done|]. apply Forall_app. split; [|done].
    eapply Forall_impl; [exact Hq2|]. by intros ev (_ & ? & ?).
Qed.

End RunTwice.

Lemma main_blank_history_witness :
  let C := sample_collaborators 1000000 [entry_t1; entry_t2] in
  exit_status (@main C world_blank).1 = 1
  ∧ history_file (@main C world_blank).2 = Some (u " ").
Proof.
  intros C.
  edestruct (@main_blank_history C world_blank (u "TOKEN") (u " "))
    as (_ & Hexit & Hfile & _).
  - reflexivity.
  - discriminate.
  - vm_compute. reflexivity.
  - discriminate.
  - reflexivity.
  - repeat constructor.
  - split; [exact Hexit | exact Hfile].
Defined.

Lemma main_failed_send_witness :
  let C := sample_transport_collaborators 1000000 [entry_t1; entry_t2]
             HttpRaise in
  exit_status (@main C world0).1 = 1
  ∧ history_file (@main C world0).2 = history_file (@bootstrap world0).
Proof.
  intros C.
  edestruct (@main_failed_send C world0 (u "TOKEN"))
    as (_ & Hexit & Hfile & _).
  - reflexivity.
  - discriminate.
  - vm_compute. reflexivity.
  - discriminate.
  - vm_compute. reflexivity.
  - vm_compute. reflexivity.
  - vm_compute. reflexivity.
  - vm_compute. reflexivity.
  - split; [exact Hexit | exact Hfile].
Defined.

Lemma main_second_run_quiet_witness :
  let C := sample_collaborators 1000000 [entry_t1; entry_t2] in
  let w1 := (@main C world0).2 in
  let w2 := World (env_token w1) (config_file w1) (history_file w1) 0 [] in
  (@main C w2).1 = Ok tt ∧ history_file (@main C w2).2 = history_file w2.
Proof.
  intros C w1 w2.
  destruct (@main_second_run_quiet C world0 w1 w2) as (Hok & Hfile & _).
  - vm_compute. reflexivity.
  - reflexivity.
  - reflexivity.
  - reflexivity.
  - intros urls Hurls. vm_compute in Hurls. injection Hurls as <-.
    vm_compute. reflexivity.
  - intros k. apply Qle_refl.
  - split; [exact Hok | exact Hfile].
Defined.
